(** * RRT motion planning (CSCI3302_hw2_rrt.py): a shallow embedding

    Points are n-dimensional vectors, written as lists.  Python
    exceptions are values of [exn]; a call that may raise returns
    [exn + A].  [Node] objects live in a store and are named by their
    address, so that a parent link is a reference, as in Python.

    Numbers are real numbers where only the structure of the code
    matters (shapes, loops, errors, the store, the generators).  Module
    [Binary64] gives the validity predicate on the binary64 numbers of
    numpy, operation by operation, for what depends on rounding. *)

From Stdlib Require Import Floats.
From Stdlib Require Import List ZArith Reals Lra Lia.
Import ListNotations.

Local Open Scope R_scope.

Set Warnings "-inexact-float".

(** ** Exceptions and results *)

Inductive exn : Type :=
| NotImplementedError
| IndexError
| ValueError.

Definition result (A : Type) : Type := (exn + A)%type.

Definition Ok {A : Type} (a : A) : result A := inr a.
Definition Raise {A : Type} (e : exn) : result A := inl e.

(** ** Points and numpy arithmetic *)

Definition Point : Type := list R.

Definition Rltb (x y : R) : bool := if Rlt_dec x y then true else false.
Definition Rleb (x y : R) : bool := if Rle_dec x y then true else false.
Definition Rgeb (x y : R) : bool := if Rge_dec x y then true else false.

(** [a - b] on one-dimensional arrays: elementwise on equal shapes, an
    array of one element is broadcast, other shapes raise [ValueError]. *)
Definition np_sub (a b : Point) : result Point :=
  if Nat.eqb (length a) (length b)
  then Ok (map (fun xy => fst xy - snd xy) (combine a b))
  else match a, b with
       | [x], _ => Ok (map (fun y => x - y) b)
       | _, [y] => Ok (map (fun x => x - y) a)
       | _, _ => Raise ValueError
       end.

Definition sum_sq (v : Point) : R := fold_right (fun x acc => x * x + acc) 0 v.

(** [np.linalg.norm] of a one-dimensional array. *)
Definition np_linalg_norm (v : Point) : R := sqrt (sum_sq v).

(** The Euclidean distance between two points of the same dimension. *)
Fixpoint sq_dist (p q : Point) : R :=
  match p, q with
  | x :: p', y :: q' => (x - y) * (x - y) + sq_dist p' q'
  | _, _ => 0
  end.

Definition euclidean_distance (p q : Point) : R := sqrt (sq_dist p q).

(** ** World set-up: the validity predicate *)

Definition Bounds : Type := list (R * R).
Definition Obstacle : Type := (Point * R)%type.

(** The first loop of [state_is_valid], from dimension [dim] on.
    [Ok false] is the early [return False]; [Ok true] means that the
    loop ran to its end. *)
Fixpoint bounds_loop (state : Point) (rest : Bounds) (dim : nat) : result bool :=
  match rest with
  | [] => Ok true
  | (lo, hi) :: rest' =>
      match nth_error state dim with
      | None => Raise IndexError
      | Some x =>
          if Rltb x lo then Ok false
          else if Rgeb x hi then Ok false
          else bounds_loop state rest' (S dim)
      end
  end.

(** The second loop of [state_is_valid]. *)
Fixpoint obstacles_loop (state : Point) (obstacles : list Obstacle) : result bool :=
  match obstacles with
  | [] => Ok true
  | obs :: rest =>
      match np_sub state (fst obs) with
      | inl e => Raise e
      | inr v =>
          if Rleb (np_linalg_norm v) (snd obs) then Ok false
          else obstacles_loop state rest
      end
  end.

(** The closure [state_is_valid] of both world set-ups; [state_bounds]
    and [obstacles] are the variables it captures. *)
Definition state_is_valid (state_bounds : Bounds) (obstacles : list Obstacle)
    (state : Point) : result bool :=
  match bounds_loop state state_bounds 0 with
  | inl e => Raise e
  | inr false => Ok false
  | inr true => obstacles_loop state obstacles
  end.

(** [setup_fixed_test_2d_world]: the unit square with three discs. *)
Definition fixed_state_bounds : Bounds := [(0, 1); (0, 1)].
Definition fixed_obstacles : list Obstacle :=
  [([0.5; 0.5], 0.2); ([0.1; 0.7], 0.1); ([0.7; 0.2], 0.1)].

Definition setup_fixed_test_2d_world
  : Bounds * list Obstacle * (Point -> result bool) :=
  (fixed_state_bounds, fixed_obstacles,
   state_is_valid fixed_state_bounds fixed_obstacles).

(** ** The store: Node objects and the two random generators *)

(** A [Node] object is named by its address in the store. *)
Definition ref : Type := nat.

Record Node : Type := mkNode {
  point : Point;
  parent : option ref;
  path_from_parent : list Point
}.

(** A generator is the sequence of numbers in [0, 1) that its seed fixes
    and the count of numbers drawn so far. *)
Record Generator : Type := mkGenerator {
  stream : nat -> R;
  pos : nat
}.

Record World : Type := mkWorld {
  heap : list Node;
  py_random : Generator;
  np_random : Generator
}.

Definition M (A : Type) : Type := World -> result A * World.

Definition ret {A : Type} (a : A) : M A := fun w => (Ok a, w).

Definition raise {A : Type} (e : exn) : M A := fun w => (Raise e, w).

Definition bind {A B : Type} (m : M A) (f : A -> M B) : M B :=
  fun w =>
    match m w with
    | (inl e, w') => (Raise e, w')
    | (inr a, w') => f a w'
    end.

Definition lift {A : Type} (r : result A) : M A := fun w => (r, w).

Declare Scope rrt_scope.
Delimit Scope rrt_scope with rrt.
Notation "x <- m ;; k" := (bind m (fun x => k))
  (at level 61, m at next level, right associativity) : rrt_scope.
Local Open Scope rrt_scope.

Definition draw (g : Generator) : R * Generator :=
  (stream g (pos g), mkGenerator (stream g) (S (pos g))).

(** [random.random()] *)
Definition random_random : M R :=
  fun w =>
    let (u, g) := draw (py_random w) in
    (Ok u, mkWorld (heap w) g (np_random w)).

(** [np.random.rand(n)] *)
Fixpoint np_random_rand (n : nat) : M (list R) :=
  match n with
  | O => ret []
  | S n' =>
      fun w =>
        let (u, g) := draw (np_random w) in
        (us <- np_random_rand n' ;; ret (u :: us))
          (mkWorld (heap w) (py_random w) g)
  end.

(** [Node(pt, parent)]: a new object, with an empty [path_from_parent]. *)
Definition new_Node (pt : Point) (parent : option ref) : M ref :=
  fun w =>
    (Ok (length (heap w)),
     mkWorld (heap w ++ [mkNode pt parent []]) (py_random w) (np_random w)).

Definition get_node (w : World) (r : ref) : option Node := nth_error (heap w) r.

(** ** World set-up: random obstacles *)

Fixpoint center_loop (rest : Bounds) (center_vector : list R) : M (list R) :=
  match rest with
  | [] => ret center_vector
  | (lo, hi) :: rest' =>
      u <- random_random ;;
      center_loop rest' (center_vector ++ [lo + u * (hi - lo)])
  end.

Definition get_nd_obstacle (state_bounds : Bounds) : M Obstacle :=
  center_vector <- center_loop state_bounds [] ;;
  u <- random_random ;;
  let radius := u * 0.6 in
  ret (center_vector, radius).

Fixpoint obstacles_append_loop (n : nat) (state_bounds : Bounds)
    (obstacles : list Obstacle) : M (list Obstacle) :=
  match n with
  | O => ret obstacles
  | S n' =>
      obs <- get_nd_obstacle state_bounds ;;
      obstacles_append_loop n' state_bounds (obstacles ++ [obs])
  end.

Definition random_state_bounds : Bounds := [(0, 10); (0, 10)].

Definition setup_random_2d_world
  : M (Bounds * list Obstacle * (Point -> result bool)) :=
  let state_bounds := random_state_bounds in
  obstacles <- obstacles_append_loop 30 state_bounds [] ;;
  ret (state_bounds, obstacles, state_is_valid state_bounds obstacles).

(** ** The sampler *)

(** One draw of the sampler's loop:
    [np.random.rand(n) * (bounds[:,1] - bounds[:,0]) + bounds[:,0]]. *)
Definition sample_point (bounds : Bounds) : M Point :=
  us <- np_random_rand (length bounds) ;;
  ret (map (fun ub => fst ub * (snd (snd ub) - fst (snd ub)) + fst (snd ub))
           (combine us bounds)).

(** [get_random_valid_vertex]: the value of [vertex] after at most [fuel]
    turns of the [while vertex is None] loop. *)
Fixpoint get_random_valid_vertex (fuel : nat)
    (state_is_valid : Point -> result bool) (bounds : Bounds)
  : M (option Point) :=
  match fuel with
  | O => ret None
  | S fuel' =>
      pt <- sample_point bounds ;;
      valid <- lift (state_is_valid pt) ;;
      if valid : bool then ret (Some pt)
      else get_random_valid_vertex fuel' state_is_valid bounds
  end.

(** ** The planner *)

Definition get_nearest_vertex (node_list : list ref) (q_point : Point) : M ref :=
  raise NotImplementedError.

Definition steer (from_point to_point : Point) (delta_q : R)
  : result (list Point) :=
  Raise NotImplementedError.

Definition check_path_valid (path : list Point)
    (state_is_valid : Point -> result bool) : result bool :=
  Raise NotImplementedError.

Definition rrt (state_bounds : Bounds) (state_is_valid : Point -> result bool)
    (starting_point : Point) (goal_point : option Point) (k : Z) (delta_q : R)
  : M (list ref) :=
  let node_list := [] in
  root <- new_Node starting_point None ;;
  let node_list := node_list ++ [root] in
  ret node_list.

(** [np.linalg.norm(bounds/10.)], the step bound of the script's runs. *)
Definition run_delta_q (bounds : Bounds) : R :=
  np_linalg_norm (flat_map (fun b => [fst b / 10; snd b / 10]) bounds).

(** ** The parent structure of a node list *)

(** Every node but the first has a parent at a strictly earlier index. *)
Definition parents_earlier (w : World) (node_list : list ref) : Prop :=
  forall (i : nat) (r : ref),
    (0 < i)%nat -> nth_error node_list i = Some r ->
    exists (n : Node) (p : ref) (j : nat),
      get_node w r = Some n /\ parent n = Some p /\
      (j < i)%nat /\ nth_error node_list j = Some p.

(** [parent_chain w root r visited]: following parent links from [r]
    visits the nodes [visited], in this order, and stops at [root], a
    node without a parent. *)
Inductive parent_chain (w : World) (root : ref) : ref -> list ref -> Prop :=
| chain_root (n : Node) :
    get_node w root = Some n -> parent n = None ->
    parent_chain w root root [root]
| chain_step (r : ref) (n : Node) (p : ref) (visited : list ref) :
    get_node w r = Some n -> parent n = Some p ->
    parent_chain w root p visited ->
    parent_chain w root r (r :: visited).

Definition single_rooted_tree (w : World) (node_list : list ref) : Prop :=
  parents_earlier w node_list /\
  forall r : ref, In r node_list ->
    exists (root : ref) (visited : list ref),
      nth_error node_list 0 = Some root /\
      parent_chain w root r visited /\ NoDup visited.

(** The walk of [visualize_2D_graph] from a node up its parent links:
    the nodes met in at most [fuel] turns of the loop. *)
Fixpoint follow_parents (fuel : nat) (w : World) (cur_node : ref) : list ref :=
  match fuel with
  | O => []
  | S fuel' =>
      match get_node w cur_node with
      | Some n =>
          match parent n with
          | Some p => cur_node :: follow_parents fuel' w p
          | None => [cur_node]
          end
      | None => []
      end
  end.

(** Numbers drawn from numpy's generator between two worlds. *)
Definition numbers_drawn (w w' : World) : nat :=
  (pos (np_random w') - pos (np_random w))%nat.

Definition within (x : R) (b : R * R) : Prop := fst b <= x < snd b.

(** ** Notions used to state the properties of the sampler and the store *)

(** The world after [m] more numbers have been drawn from numpy's
    generator. *)
Definition advance (w : World) (m : nat) : World :=
  mkWorld (heap w) (py_random w)
          (mkGenerator (stream (np_random w)) (pos (np_random w) + m)).

(** The point that the [j]-th turn of the sampler's loop draws, counting
    from 0, when the loop starts with generator [g]. *)
Definition candidate (bounds : Bounds) (g : Generator) (j : nat) : Point :=
  map (fun ub => fst ub * (snd (snd ub) - fst (snd ub)) + fst (snd ub))
      (combine (map (stream g)
                    (seq (pos g + j * length bounds) (length bounds)))
               bounds).

(** A generator all of whose numbers lie in [0, 1). *)
Definition unit_interval_stream (g : Generator) : Prop :=
  forall i : nat, 0 <= stream g i < 1.

(** Bounds with [min < max] in every dimension. *)
Definition proper_bounds (bounds : Bounds) : Prop :=
  Forall (fun b : R * R => fst b < snd b) bounds.

(** Every parent link of the store points to an older object. *)
Definition heap_ordered (w : World) : Prop :=
  forall (r : ref) (n : Node) (p : ref),
    get_node w r = Some n -> parent n = Some p -> (p < r)%nat.

(** A world for the examples: no node yet, and generators that yield
    0.5 (Python's) and 0.9 (numpy's) for ever. *)
Definition constant_world : World :=
  mkWorld [] (mkGenerator (fun _ => 0.5) 0) (mkGenerator (fun _ => 0.9) 0).

(** Between [w] and [w'] only Python's generator moved, by [m] numbers. *)
Definition same_but_python_drew (w w' : World) (m : nat) : Prop :=
  heap w' = heap w /\ np_random w' = np_random w /\
  stream (py_random w') = stream (py_random w) /\
  pos (py_random w') = (pos (py_random w) + m)%nat.

(** A disc with its centre within the bounds and a radius in [0, 0.6). *)
Definition obstacle_in_domain (bounds : Bounds) (obs : Obstacle) : Prop :=
  Forall2 within (fst obs) bounds /\ 0 <= snd obs < 0.6.

(** A store for the examples: a root and a child of it. *)
Definition two_node_world : World :=
  mkWorld [mkNode [0.9; 0.9] None [];
           mkNode [0.9; 0.8] (Some 0%nat) [[0.9; 0.9]; [0.9; 0.8]]]
          (py_random constant_world) (np_random constant_world).

(** A world for the examples whose numpy generator yields 0.5 twice and
    0.9 from then on: in the fixed world the sampler first draws the
    centre of an obstacle and then a free point. *)
Definition stepping_world : World :=
  mkWorld [] (mkGenerator (fun _ => 0.5) 0)
          (mkGenerator (fun i => if Nat.ltb i 2 then 0.5 else 0.9) 0).

(** Obstacles for the examples whose second centre has three
    coordinates, one more than the fixed world has dimensions. *)
Definition misshaped_obstacles : list Obstacle :=
  [([0.5; 0.5], 0.2); ([0.1; 0.7; 0.3], 0.1)].

(** ** The validity predicate on binary64 numbers

    The definitions above compute with real numbers.  The ones of this
    module compute as the code does, with the binary64 numbers of numpy:
    IEEE subtraction, multiplication, addition, square root and
    comparisons. *)

Module Binary64.

Definition Point : Type := list float.
Definition Bounds : Type := list (float * float).
Definition Obstacle : Type := (Point * float)%type.

(** [a - b] on one-dimensional arrays of binary64 numbers. *)
Definition np_sub (a b : Point) : result Point :=
  if Nat.eqb (length a) (length b)
  then Ok (map (fun xy => (fst xy - snd xy)%float) (combine a b))
  else match a, b with
       | [x], _ => Ok (map (fun y => (x - y)%float) b)
       | _, [y] => Ok (map (fun x => (x - y)%float) a)
       | _, _ => Raise ValueError
       end.

(** [x.dot(x)], summed from the first coordinate on. *)
Definition dot_self (v : Point) : float :=
  fold_left (fun acc x => (acc + x * x)%float) v 0%float.

(** [np.linalg.norm] of a one-dimensional array: [sqrt(x.dot(x))]. *)
Definition np_linalg_norm (v : Point) : float := PrimFloat.sqrt (dot_self v).

Fixpoint bounds_loop (state : Point) (rest : Bounds) (dim : nat) : result bool :=
  match rest with
  | [] => Ok true
  | (lo, hi) :: rest' =>
      match nth_error state dim with
      | None => Raise IndexError
      | Some x =>
          if (x <? lo)%float then Ok false
          else if (hi <=? x)%float then Ok false
          else bounds_loop state rest' (S dim)
      end
  end.

Fixpoint obstacles_loop (state : Point) (obstacles : list Obstacle) : result bool :=
  match obstacles with
  | [] => Ok true
  | obs :: rest =>
      match np_sub state (fst obs) with
      | inl e => Raise e
      | inr v =>
          if (np_linalg_norm v <=? snd obs)%float then Ok false
          else obstacles_loop state rest
      end
  end.

Definition state_is_valid (state_bounds : Bounds) (obstacles : list Obstacle)
    (state : Point) : result bool :=
  match bounds_loop state state_bounds 0 with
  | inl e => Raise e
  | inr false => Ok false
  | inr true => obstacles_loop state obstacles
  end.

Definition fixed_state_bounds : Bounds := [(0, 1); (0, 1)]%float.
Definition fixed_obstacles : list Obstacle :=
  [([0.5; 0.5], 0.2); ([0.1; 0.7], 0.1); ([0.7; 0.2], 0.1)]%float.

Definition random_state_bounds : Bounds := [(0, 10); (0, 10)]%float.

(** The distance of two points of the same dimension as the code
    computes it: each operation rounds to binary64. *)
Definition computed_distance (p q : Point) : float :=
  np_linalg_norm (map (fun xy => (fst xy - snd xy)%float) (combine p q)).

(** Not a NaN. *)
Definition is_number (x : float) : Prop := PrimFloat.is_nan x = false.

(** The real number that a finite binary64 number stands for. *)
Definition SF2R (f : spec_float) : R :=
  match f with
  | S754_finite s m e => (if s then -1 else 1) * IZR (Zpos m) * powerRZ 2 e
  | _ => 0
  end.

Definition value (x : float) : R := SF2R (Prim2SF x).

End Binary64.

(** ** Facts about the comparisons and the norm *)

Lemma Rltb_true (x y : R) : Rltb x y = true <-> x < y.
Proof.
  unfold Rltb. destruct (Rlt_dec x y); split; intro H;
    try reflexivity; try assumption; try discriminate; contradiction.
Qed.

Lemma Rltb_false (x y : R) : Rltb x y = false <-> y <= x.
Proof.
  unfold Rltb. destruct (Rlt_dec x y); split; intro H;
    try reflexivity; try discriminate; lra.
Qed.

Lemma Rleb_true (x y : R) : Rleb x y = true <-> x <= y.
Proof.
  unfold Rleb. destruct (Rle_dec x y); split; intro H;
    try reflexivity; try assumption; try discriminate; contradiction.
Qed.

Lemma Rleb_false (x y : R) : Rleb x y = false <-> y < x.
Proof.
  unfold Rleb. destruct (Rle_dec x y); split; intro H;
    try reflexivity; try discriminate; lra.
Qed.

Lemma Rgeb_true (x y : R) : Rgeb x y = true <-> y <= x.
Proof.
  unfold Rgeb. destruct (Rge_dec x y); split; intro H;
    try reflexivity; try discriminate; lra.
Qed.

Lemma Rgeb_false (x y : R) : Rgeb x y = false <-> x < y.
Proof.
  unfold Rgeb. destruct (Rge_dec x y); split; intro H;
    try reflexivity; try discriminate; lra.
Qed.

Lemma np_sub_same_shape (a b : Point) :
  length a = length b ->
  np_sub a b = Ok (map (fun xy => fst xy - snd xy) (combine a b)).
Proof.
  intro H. unfold np_sub. rewrite H, Nat.eqb_refl. reflexivity.
Qed.

Lemma sum_sq_combine (a b : Point) :
  sum_sq (map (fun xy => fst xy - snd xy) (combine a b)) = sq_dist a b.
Proof.
  revert b. induction a as [|x a IH]; intros [|y b]; simpl; try reflexivity.
  rewrite <- IH. reflexivity.
Qed.

Lemma norm_of_difference (a b v : Point) :
  length a = length b ->
  np_sub a b = Ok v ->
  np_linalg_norm v = euclidean_distance a b.
Proof.
  intros Hlen Hsub. rewrite (np_sub_same_shape a b Hlen) in Hsub.
  injection Hsub as <-. unfold np_linalg_norm, euclidean_distance.
  rewrite sum_sq_combine. reflexivity.
Qed.

Lemma sq_dist_nonneg (p q : Point) : 0 <= sq_dist p q.
Proof.
  revert q. induction p as [|x p IH]; intros [|y q]; simpl; try lra.
  specialize (IH q). pose proof (Rle_0_sqr (x - y)) as Hsq.
  unfold Rsqr in Hsq. lra.
Qed.

(** Comparing a distance with a non-negative number without the root. *)
Lemma lt_sqrt (a x : R) : 0 <= a -> a * a < x -> a < sqrt x.
Proof.
  intros Ha Hx. rewrite <- (sqrt_square a Ha).
  apply sqrt_lt_1_alt. split; [nra | assumption].
Qed.

Lemma sqrt_le (a x : R) : 0 <= a -> 0 <= x -> x <= a * a -> sqrt x <= a.
Proof.
  intros Ha H0 Hx. rewrite <- (sqrt_square a Ha).
  apply sqrt_le_1_alt. assumption.
Qed.

(** ** The two loops of the validity predicate *)

Lemma bounds_loop_spec (state : Point) :
  forall (rest : Bounds) (dim : nat),
    (dim + length rest <= length state)%nat ->
    (exists b, bounds_loop state rest dim = Ok b) /\
    (bounds_loop state rest dim = Ok true <->
     forall i b x, nth_error rest i = Some b ->
                   nth_error state (dim + i) = Some x -> within x b).
Proof.
  induction rest as [|[lo hi] rest IH]; intros dim Hlen; simpl in *.
  - split; [exists true; reflexivity|].
    split; [intros _ [|i] b x H; discriminate | reflexivity].
  - destruct (nth_error state dim) as [x|] eqn:Hx.
    2:{ apply nth_error_None in Hx. lia. }
    destruct (Rltb x lo) eqn:Hlo.
    { split; [exists false; reflexivity|].
      split; [discriminate|]. intro H. apply Rltb_true in Hlo.
      specialize (H 0%nat (lo, hi) x eq_refl).
      rewrite Nat.add_0_r in H. specialize (H Hx).
      unfold within in H; simpl in H. lra. }
    destruct (Rgeb x hi) eqn:Hhi.
    { split; [exists false; reflexivity|].
      split; [discriminate|]. intro H. apply Rgeb_true in Hhi.
      specialize (H 0%nat (lo, hi) x eq_refl).
      rewrite Nat.add_0_r in H. specialize (H Hx).
      unfold within in H; simpl in H. lra. }
    apply Rltb_false in Hlo. apply Rgeb_false in Hhi.
    destruct (IH (S dim)) as [Hex Hiff]; [lia|].
    split; [exact Hex|]. rewrite Hiff. split.
    + intros H [|i] b y Hb Hy.
      * simpl in Hb. injection Hb as <-. rewrite Nat.add_0_r in Hy.
        rewrite Hx in Hy. injection Hy as <-. unfold within; simpl. lra.
      * simpl in Hb. apply (H i b y Hb).
        rewrite <- Hy. f_equal. lia.
    + intros H i b y Hb Hy. apply (H (S i) b y Hb).
      rewrite <- Hy. f_equal. lia.
Qed.

Lemma obstacles_loop_spec (state : Point) :
  forall obstacles : list Obstacle,
    Forall (fun obs : Obstacle => length (fst obs) = length state) obstacles ->
    (exists b, obstacles_loop state obstacles = Ok b) /\
    (obstacles_loop state obstacles = Ok true <->
     forall obs, In obs obstacles ->
                 snd obs < euclidean_distance state (fst obs)).
Proof.
  induction obstacles as [|obs rest IH]; intro Hshape;
    cbn [obstacles_loop In].
  - split; [exists true; reflexivity|].
    split; [intros _ obs [] | reflexivity].
  - inversion Hshape as [|? ? Hobs Hrest]; subst.
    symmetry in Hobs.
    destruct (np_sub state (fst obs)) as [e|v] eqn:Hsub.
    { rewrite (np_sub_same_shape _ _ Hobs) in Hsub. discriminate. }
    rewrite (norm_of_difference _ _ _ Hobs Hsub).
    destruct (Rleb (euclidean_distance state (fst obs)) (snd obs)) eqn:Hle.
    + split; [exists false; reflexivity|].
      split; [discriminate|]. intro H. apply Rleb_true in Hle.
      specialize (H obs (or_introl eq_refl)). lra.
    + apply Rleb_false in Hle. destruct (IH Hrest) as [Hex Hiff].
      split; [exact Hex|]. rewrite Hiff. split.
      * intros H o [<-|Ho]; [exact Hle | exact (H o Ho)].
      * intros H o Ho. apply H. right. exact Ho.
Qed.

Lemma state_is_valid_total (state_bounds : Bounds) (obstacles : list Obstacle)
    (state : Point) :
  length state = length state_bounds ->
  Forall (fun obs : Obstacle => length (fst obs) = length state) obstacles ->
  exists b, state_is_valid state_bounds obstacles state = Ok b.
Proof.
  intros Hdim Hshape. unfold state_is_valid.
  destruct (bounds_loop_spec state state_bounds 0) as [[b Hb] _]; [lia|].
  rewrite Hb. unfold Ok. destruct b.
  - exact (proj1 (obstacles_loop_spec state obstacles Hshape)).
  - exists false. reflexivity.
Qed.

Lemma state_is_valid_true_iff (state_bounds : Bounds)
    (obstacles : list Obstacle) (state : Point) :
  length state = length state_bounds ->
  Forall (fun obs : Obstacle => length (fst obs) = length state) obstacles ->
  state_is_valid state_bounds obstacles state = Ok true <->
  (forall d b x, nth_error state_bounds d = Some b ->
                 nth_error state d = Some x -> within x b) /\
  (forall obs, In obs obstacles ->
               snd obs < euclidean_distance state (fst obs)).
Proof.
  intros Hdim Hshape. unfold state_is_valid.
  destruct (bounds_loop_spec state state_bounds 0) as [[b Hb] Hbounds]; [lia|].
  destruct (obstacles_loop_spec state obstacles Hshape) as [_ Hobs].
  rewrite Hb in *. unfold Ok in *. destruct b.
  - rewrite Hobs. split.
    + intro H. split; [|exact H]. apply Hbounds. reflexivity.
    + intros [_ H]. exact H.
  - split; [discriminate|]. intros [H _].
    apply Hbounds in H. discriminate.
Qed.

(** ** Evaluating the comparisons on concrete numbers *)

Ltac decide_cmp :=
  match goal with
  | |- context [Rltb ?x ?y] =>
      first [ rewrite (proj2 (Rltb_true x y)) by lra
            | rewrite (proj2 (Rltb_false x y)) by lra ]
  | |- context [Rgeb ?x ?y] =>
      first [ rewrite (proj2 (Rgeb_true x y)) by lra
            | rewrite (proj2 (Rgeb_false x y)) by lra ]
  | |- context [Rleb (np_linalg_norm ?v) ?r] =>
      first [ rewrite (proj2 (Rleb_false (np_linalg_norm v) r))
                by (apply lt_sqrt; cbn [sum_sq fold_right]; lra)
            | rewrite (proj2 (Rleb_true (np_linalg_norm v) r))
                by (apply sqrt_le; cbn [sum_sq fold_right]; lra) ]
  end.

Ltac run_state_is_valid :=
  cbv [state_is_valid bounds_loop obstacles_loop nth_error np_sub length
       Nat.eqb combine map fst snd fixed_state_bounds fixed_obstacles
       random_state_bounds Ok Raise];
  repeat decide_cmp; try reflexivity.

Example fixed_world_free_point :
  state_is_valid fixed_state_bounds fixed_obstacles [0.9; 0.9] = Ok true.
Proof. run_state_is_valid. Qed.

Example fixed_world_minimum_is_inside :
  state_is_valid fixed_state_bounds fixed_obstacles [0; 0.9] = Ok true.
Proof. run_state_is_valid. Qed.

Example fixed_world_maximum_is_outside :
  state_is_valid fixed_state_bounds fixed_obstacles [0.9; 1] = Ok false.
Proof. run_state_is_valid. Qed.

Example fixed_world_obstacle_boundary_is_invalid :
  state_is_valid fixed_state_bounds fixed_obstacles [0.7; 0.5] = Ok false.
Proof. run_state_is_valid. Qed.

Example fixed_world_short_state_raises :
  state_is_valid fixed_state_bounds fixed_obstacles [0.9] = Raise IndexError.
Proof. run_state_is_valid. Qed.

(** ** The validity predicate (both world set-ups) *)

(** *** Comparisons of binary64 numbers *)

Lemma SFltb_negb_SFleb (a b : spec_float) :
  SFeqb a a = true -> SFeqb b b = true -> SFltb a b = negb (SFleb b a).
Proof.
  unfold SFltb, SFleb, SFeqb.
  destruct a as [sa|sa| |sa ma ea], b as [sb|sb| |sb mb eb]; simpl;
    try discriminate; intros _ _;
    try (destruct sa; reflexivity); try (destruct sb; reflexivity);
    try (destruct sa, sb; reflexivity).
  destruct sa, sb; try reflexivity;
    rewrite (Z.compare_antisym ea eb);
    destruct (ea ?= eb)%Z; simpl; try reflexivity;
    pose proof (Pos.compare_cont_antisym ma mb Eq) as H; simpl in H;
    rewrite <- H; destruct (Pos.compare_cont Eq ma mb); reflexivity.
Qed.

Lemma is_number_spec (x : float) :
  Binary64.is_number x -> SFeqb (Prim2SF x) (Prim2SF x) = true.
Proof.
  unfold Binary64.is_number, is_nan. rewrite eqb_spec.
  destruct (SFeqb (Prim2SF x) (Prim2SF x)); [reflexivity | discriminate].
Qed.

(** On numbers, [x < y] is the negation of [y <= x]. *)
Lemma ltb_negb_leb (x y : float) :
  Binary64.is_number x -> Binary64.is_number y ->
  (x <? y)%float = negb (y <=? x)%float.
Proof.
  intros Hx Hy. rewrite ltb_spec, leb_spec.
  apply SFltb_negb_SFleb; apply is_number_spec; assumption.
Qed.

Lemma nth_error_is_number (state : Binary64.Point) (d : nat) (x : float) :
  Forall Binary64.is_number state -> nth_error state d = Some x ->
  Binary64.is_number x.
Proof.
  intros Hall Hx. rewrite Forall_forall in Hall.
  apply Hall. exact (nth_error_In state d Hx).
Qed.

(** *** The two loops on binary64 numbers *)

Lemma bounds_loop64_spec (state : Binary64.Point) :
  Forall Binary64.is_number state ->
  forall (rest : Binary64.Bounds) (dim : nat),
    (dim + length rest <= length state)%nat ->
    Forall (fun b : float * float =>
              Binary64.is_number (fst b) /\ Binary64.is_number (snd b)) rest ->
    (exists b, Binary64.bounds_loop state rest dim = Ok b) /\
    (Binary64.bounds_loop state rest dim = Ok true <->
     forall i lo hi x,
       nth_error rest i = Some (lo, hi) ->
       nth_error state (dim + i) = Some x ->
       (lo <=? x)%float = true /\ (x <? hi)%float = true).
Proof.
  intro Hstate.
  induction rest as [|[lo hi] rest IH]; intros dim Hlen Hnum; simpl in Hlen.
  - split; [exists true; reflexivity|].
    split; [intros _ [|i] lo hi x H; discriminate | reflexivity].
  - inversion Hnum as [|? ? [Hlo Hhi] Hnum']; subst. simpl in Hlo, Hhi.
    cbn [Binary64.bounds_loop].
    destruct (nth_error state dim) as [x|] eqn:Hx.
    2:{ apply nth_error_None in Hx. lia. }
    pose proof (nth_error_is_number state dim x Hstate Hx) as Hxnum.
    pose proof (ltb_negb_leb x lo Hxnum Hlo) as Hcmp_lo.
    pose proof (ltb_negb_leb x hi Hxnum Hhi) as Hcmp_hi.
    destruct (x <? lo)%float eqn:Hltlo.
    { split; [exists false; reflexivity|].
      split; [discriminate|]. intro H.
      destruct (H 0%nat lo hi x eq_refl) as [Hge _].
      - rewrite Nat.add_0_r. exact Hx.
      - rewrite Hge in Hcmp_lo. discriminate. }
    destruct (hi <=? x)%float eqn:Hlehi.
    { split; [exists false; reflexivity|].
      split; [discriminate|]. intro H.
      destruct (H 0%nat lo hi x eq_refl) as [_ Hlt].
      - rewrite Nat.add_0_r. exact Hx.
      - rewrite Hlt in Hcmp_hi. discriminate. }
    destruct (IH (S dim)) as [Hex Hiff]; [lia | exact Hnum' |].
    split; [exact Hex|]. rewrite Hiff. split.
    + intros H [|i] lo' hi' y Hb Hy.
      * simpl in Hb. injection Hb as <- <-. rewrite Nat.add_0_r in Hy.
        rewrite Hx in Hy. injection Hy as <-.
        split; [|exact Hcmp_hi].
        destruct (lo <=? x)%float; [reflexivity | discriminate].
      * simpl in Hb. apply (H i lo' hi' y Hb).
        rewrite <- Hy. f_equal. lia.
    + intros H i lo' hi' y Hb Hy. apply (H (S i) lo' hi' y Hb).
      rewrite <- Hy. f_equal. lia.
Qed.

Lemma np_sub64_same_shape (a b : Binary64.Point) :
  length a = length b ->
  Binary64.np_sub a b =
    Ok (map (fun xy => (fst xy - snd xy)%float) (combine a b)).
Proof.
  intro H. unfold Binary64.np_sub. rewrite H, Nat.eqb_refl. reflexivity.
Qed.

Lemma obstacles_loop64_spec (state : Binary64.Point) :
  forall obstacles : list Binary64.Obstacle,
    Forall (fun obs : Binary64.Obstacle => length (fst obs) = length state)
           obstacles ->
    Forall (fun obs : Binary64.Obstacle =>
              Binary64.is_number (snd obs) /\
              Binary64.is_number (Binary64.computed_distance state (fst obs)))
           obstacles ->
    (exists b, Binary64.obstacles_loop state obstacles = Ok b) /\
    (Binary64.obstacles_loop state obstacles = Ok true <->
     forall center radius,
       In (center, radius) obstacles ->
       (radius <? Binary64.computed_distance state center)%float = true).
Proof.
  induction obstacles as [|[c r] rest IH]; intros Hshape Hnum;
    cbn [Binary64.obstacles_loop In].
  - split; [exists true; reflexivity|].
    split; [intros _ center radius [] | reflexivity].
  - inversion Hshape as [|? ? Hc Hshape']; subst.
    inversion Hnum as [|? ? [Hr Hd] Hnum']; subst.
    cbn [fst snd] in *. symmetry in Hc.
    destruct (Binary64.np_sub state c) as [e|v] eqn:Hsub.
    { rewrite (np_sub64_same_shape state c Hc) in Hsub. discriminate. }
    assert (Hv : Binary64.np_linalg_norm v
                 = Binary64.computed_distance state c).
    { rewrite (np_sub64_same_shape state c Hc) in Hsub.
      injection Hsub as <-. reflexivity. }
    rewrite Hv.
    pose proof (ltb_negb_leb r (Binary64.computed_distance state c) Hr Hd)
      as Hcmp.
    destruct (Binary64.computed_distance state c <=? r)%float eqn:Hle.
    + split; [exists false; reflexivity|].
      split; [discriminate|]. intro H.
      rewrite (H c r (or_introl eq_refl)) in Hcmp. discriminate.
    + destruct (IH Hshape' Hnum') as [Hex Hiff].
      split; [exact Hex|]. rewrite Hiff. split.
      * intros H center radius [Heq|Hin].
        -- injection Heq as <- <-. exact Hcmp.
        -- exact (H center radius Hin).
      * intros H center radius Hin. apply H. right. exact Hin.
Qed.

(** C10. On binary64 numbers none of which is a NaN, for a
    state of the dimension of the bounds and obstacle centres of that
    dimension, [state_is_valid] returns a Boolean, and it returns True
    exactly when every coordinate satisfies [min <= state[d] < max] and,
    for every obstacle, the distance that the code computes,
    [np.linalg.norm(state - centre)] with each operation rounded to
    binary64, is strictly greater than the radius. *)
Theorem state_is_valid_binary64_bounds_and_computed_distance
    (state_bounds : Binary64.Bounds) (obstacles : list Binary64.Obstacle)
    (state : Binary64.Point) :
  length state = length state_bounds ->
  Forall (fun obs : Binary64.Obstacle => length (fst obs) = length state)
         obstacles ->
  Forall Binary64.is_number state ->
  Forall (fun b : float * float =>
            Binary64.is_number (fst b) /\ Binary64.is_number (snd b))
         state_bounds ->
  Forall (fun obs : Binary64.Obstacle =>
            Binary64.is_number (snd obs) /\
            Binary64.is_number (Binary64.computed_distance state (fst obs)))
         obstacles ->
  (exists b, Binary64.state_is_valid state_bounds obstacles state = Ok b) /\
  (Binary64.state_is_valid state_bounds obstacles state = Ok true <->
   (forall d lo hi x,
       nth_error state_bounds d = Some (lo, hi) ->
       nth_error state d = Some x ->
       (lo <=? x)%float = true /\ (x <? hi)%float = true) /\
   (forall center radius,
       In (center, radius) obstacles ->
       (radius <? Binary64.computed_distance state center)%float = true)).
Proof.
  intros Hdim Hshape Hstate Hbounds Hobs.
  destruct (bounds_loop64_spec state Hstate state_bounds 0)
    as [[b Hb] Hbiff]; [lia | exact Hbounds |].
  destruct (obstacles_loop64_spec state obstacles Hshape Hobs)
    as [Hoex Hoiff].
  unfold Binary64.state_is_valid. rewrite Hb in *. unfold Ok in *.
  destruct b.
  - split; [exact Hoex|]. rewrite Hoiff. split.
    + intro H. split; [|exact H]. apply Hbiff. reflexivity.
    + intros [_ H]. exact H.
  - split; [exists false; reflexivity|].
    split; [discriminate|]. intros [H _].
    apply Hbiff in H. discriminate.
Qed.

Lemma state_is_valid_binary64_bounds_and_computed_distance_witness :
  (exists b,
     Binary64.state_is_valid Binary64.fixed_state_bounds
       Binary64.fixed_obstacles [0.1; 0.8]%float = Ok b) /\
  (Binary64.state_is_valid Binary64.fixed_state_bounds
     Binary64.fixed_obstacles [0.1; 0.8]%float = Ok true <->
   (forall d lo hi x,
       nth_error Binary64.fixed_state_bounds d = Some (lo, hi) ->
       nth_error [0.1; 0.8]%float d = Some x ->
       (lo <=? x)%float = true /\ (x <? hi)%float = true) /\
   (forall center radius,
       In (center, radius) Binary64.fixed_obstacles ->
       (radius <? Binary64.computed_distance [0.1; 0.8]%float center)%float
         = true)).
Proof.
  apply (state_is_valid_binary64_bounds_and_computed_distance
           Binary64.fixed_state_bounds Binary64.fixed_obstacles
           [0.1; 0.8]%float).
  - reflexivity.
  - repeat constructor.
  - repeat constructor.
  - repeat constructor.
  - repeat constructor.
Defined.

(** The code at the two points of the fixed world next to the disc of
    centre [0.1, 0.7] and radius 0.1: the binary64 numbers 0.8 and 0.7
    differ by a little more than the binary64 number 0.1. *)
Example binary64_fixed_world_above_disc :
  Binary64.state_is_valid Binary64.fixed_state_bounds
    Binary64.fixed_obstacles [0.1; 0.8]%float = Ok true.
Proof. vm_compute. reflexivity. Qed.

Example binary64_fixed_world_on_disc :
  Binary64.state_is_valid Binary64.fixed_state_bounds
    Binary64.fixed_obstacles [0.7; 0.5]%float = Ok false.
Proof. vm_compute. reflexivity. Qed.

Example binary64_maximum_is_outside :
  Binary64.state_is_valid Binary64.fixed_state_bounds
    Binary64.fixed_obstacles [0.9; 1]%float = Ok false.
Proof. vm_compute. reflexivity. Qed.

(** *** Exact distances *)

Ltac binary64_values :=
  repeat match goal with
         | |- context [Binary64.value ?x] =>
             let v := eval vm_compute in (Prim2SF x) in
             change (Binary64.value x) with (Binary64.SF2R v)
         end;
  cbn [Binary64.SF2R powerRZ];
  repeat match goal with
         | |- context [Pos.to_nat ?p] =>
             let n := eval vm_compute in (Pos.to_nat p) in
             change (Pos.to_nat p) with n
         end;
  cbn [pow].

(** C10 read with exact distances.  With the exact Euclidean distance
    in place of the computed one the equivalence fails: the state
    [1.375, 1.375] lies in the bounds and at an exact distance
    [sqrt 0.28125] from the centre [1, 1], which is more than the
    radius 0.5303300858899106; the distance as computed rounds to that
    radius, and the code returns False. *)
Lemma state_is_valid_exact_distance_counterexample :
  ~ (Binary64.state_is_valid Binary64.random_state_bounds
       [([1; 1], 0.5303300858899106)]%float [1.375; 1.375]%float = Ok true <->
     (forall d lo hi x,
         nth_error Binary64.random_state_bounds d = Some (lo, hi) ->
         nth_error [1.375; 1.375]%float d = Some x ->
         Binary64.value lo <= Binary64.value x /\
         Binary64.value x < Binary64.value hi) /\
     (forall center radius,
         In (center, radius) [([1; 1], 0.5303300858899106)]%float ->
         Binary64.value radius <
         euclidean_distance (map Binary64.value [1.375; 1.375]%float)
                            (map Binary64.value center))).
Proof.
  intros [_ H].
  assert (Hcode :
    Binary64.state_is_valid Binary64.random_state_bounds
      [([1; 1], 0.5303300858899106)]%float [1.375; 1.375]%float = Ok true).
  { apply H. split.
    - intros d lo hi x Hb Hx.
      destruct d as [|[|d]]; simpl in Hb, Hx;
        [ | | destruct d; discriminate];
        injection Hb as <- <-; injection Hx as <-;
        binary64_values; lra.
    - intros center radius [Heq|[]]. injection Heq as <- <-.
      unfold euclidean_distance. cbn [map]. apply lt_sqrt.
      + binary64_values. lra.
      + cbn [sq_dist]. binary64_values. lra. }
  vm_compute in Hcode. discriminate.
Qed.

(** Every obstacle that [get_nd_obstacle] makes has a centre of the
    dimension of the bounds, so the predicate of the random world is
    covered as well. *)
Lemma center_loop_length (rest : Bounds) :
  forall (center_vector : list R) (w : World),
    exists c w', center_loop rest center_vector w = (Ok c, w') /\
                 length c = (length center_vector + length rest)%nat /\
                 heap w' = heap w /\ np_random w' = np_random w.
Proof.
  induction rest as [|[lo hi] rest IH]; intros cv w; simpl.
  - exists cv, w. repeat split. lia.
  - unfold bind at 1. unfold random_random at 1. simpl.
    destruct (IH (cv ++ [lo + stream (py_random w) (pos (py_random w)) * (hi - lo)])
                 (mkWorld (heap w)
                    (mkGenerator (stream (py_random w)) (S (pos (py_random w))))
                    (np_random w))) as (c & w' & Hrun & Hlen & Hheap & Hnp).
    exists c, w'. rewrite Hrun. repeat split; try assumption.
    rewrite Hlen, length_app. simpl. lia.
Qed.

Lemma get_nd_obstacle_shape (state_bounds : Bounds) (w : World) :
  exists obs w', get_nd_obstacle state_bounds w = (Ok obs, w') /\
                 length (fst obs) = length state_bounds.
Proof.
  unfold get_nd_obstacle, bind.
  destruct (center_loop_length state_bounds [] w) as (c & w1 & Hrun & Hlen & _).
  rewrite Hrun. unfold Ok. unfold random_random, ret. simpl.
  eexists. eexists. split; [reflexivity|]. simpl. exact Hlen.
Qed.

Lemma obstacles_append_loop_shape (state_bounds : Bounds) (n : nat) :
  forall (obstacles : list Obstacle) (w : World),
    Forall (fun obs : Obstacle => length (fst obs) = length state_bounds)
           obstacles ->
    exists obstacles' w',
      obstacles_append_loop n state_bounds obstacles w = (Ok obstacles', w') /\
      length obstacles' = (length obstacles + n)%nat /\
      Forall (fun obs : Obstacle => length (fst obs) = length state_bounds)
             obstacles'.
Proof.
  induction n as [|n IH]; intros obstacles w Hshape; simpl.
  - exists obstacles, w. repeat split; [lia | assumption].
  - unfold bind at 1.
    destruct (get_nd_obstacle_shape state_bounds w) as (obs & w1 & Hrun & Hlen).
    rewrite Hrun. unfold Ok.
    destruct (IH (obstacles ++ [obs]) w1) as (os & w' & Hloop & Hn & Hall).
    { apply Forall_app. split; [assumption|]. constructor; [assumption|constructor]. }
    exists os, w'. rewrite Hloop. repeat split; [|assumption].
    rewrite Hn, length_app. simpl. lia.
Qed.

Lemma setup_random_2d_world_shape (w : World) :
  exists obstacles w',
    setup_random_2d_world w =
      (Ok (random_state_bounds, obstacles,
           state_is_valid random_state_bounds obstacles), w') /\
    length obstacles = 30%nat /\
    Forall (fun obs : Obstacle => length (fst obs) = 2%nat) obstacles.
Proof.
  unfold setup_random_2d_world, bind.
  destruct (obstacles_append_loop_shape random_state_bounds 30 [] w)
    as (os & w' & Hloop & Hn & Hall); [constructor|].
  rewrite Hloop. unfold Ok, ret. exists os, w'. repeat split; assumption.
Qed.

(** ** The sampler draws from numpy's generator *)

Lemma np_random_rand_run (n : nat) :
  forall w : World,
    exists us w', np_random_rand n w = (Ok us, w') /\ length us = n /\
                  heap w' = heap w /\ py_random w' = py_random w /\
                  stream (np_random w') = stream (np_random w) /\
                  pos (np_random w') = (pos (np_random w) + n)%nat.
Proof.
  induction n as [|n IH]; intro w; simpl.
  - exists [], w. repeat split. lia.
  - unfold bind.
    destruct (IH (mkWorld (heap w) (py_random w)
                    (mkGenerator (stream (np_random w)) (S (pos (np_random w))))))
      as (us & w' & Hrun & Hlen & Hheap & Hpy & Hstream & Hpos).
    rewrite Hrun. unfold Ok, ret.
    eexists. exists w'. split; [reflexivity|].
    simpl in *. repeat split; try assumption; lia.
Qed.

(** One sampling attempt consumes one random number per dimension. *)
Lemma sample_point_numbers_drawn (bounds : Bounds) (w : World) :
  exists pt w', sample_point bounds w = (Ok pt, w') /\
                length pt = length bounds /\
                numbers_drawn w w' = length bounds.
Proof.
  unfold sample_point, bind.
  destruct (np_random_rand_run (length bounds) w)
    as (us & w' & Hrun & Hlen & _ & _ & _ & Hpos).
  rewrite Hrun. unfold Ok, ret. eexists. exists w'.
  split; [reflexivity|]. split.
  - rewrite length_map, length_combine. lia.
  - unfold numbers_drawn. lia.
Qed.

(** A vertex that the sampler returns has cost at least one attempt. *)
Lemma get_random_valid_vertex_numbers_drawn (fuel : nat)
    (valid : Point -> result bool) (bounds : Bounds) :
  forall (w w' : World) (vertex : Point),
    get_random_valid_vertex fuel valid bounds w = (Ok (Some vertex), w') ->
    (length bounds <= numbers_drawn w w')%nat /\ valid vertex = Ok true.
Proof.
  induction fuel as [|fuel IH]; intros w w' vertex; simpl.
  - unfold ret, Ok. intro H. discriminate.
  - unfold bind at 1.
    destruct (sample_point_numbers_drawn bounds w) as (pt & w1 & Hrun & _ & Hn).
    rewrite Hrun. unfold Ok. unfold bind, lift.
    destruct (valid pt) as [e|[|]] eqn:Hv.
    + unfold Raise. intro H. discriminate.
    + unfold ret, Ok. intro H. injection H as <- <-.
      split; [lia | exact Hv].
    + intro H. apply IH in H. destruct H as [Hle Hok].
      split; [|exact Hok]. unfold numbers_drawn in *. lia.
Qed.

(** ** The planner as it is written *)

Lemma rrt_run (state_bounds : Bounds) (valid : Point -> result bool)
    (starting_point : Point) (goal_point : option Point) (k : Z) (delta_q : R)
    (w : World) :
  rrt state_bounds valid starting_point goal_point k delta_q w =
    (Ok [length (heap w)],
     mkWorld (heap w ++ [mkNode starting_point None []])
             (py_random w) (np_random w)).
Proof. reflexivity. Qed.

Lemma get_node_new (h : list Node) (n : Node) (g1 g2 : Generator) :
  get_node (mkWorld (h ++ [n]) g1 g2) (length h) = Some n.
Proof.
  unfold get_node. simpl. rewrite nth_error_app2 by lia.
  rewrite Nat.sub_diag. reflexivity.
Qed.

(** C8. Every call of [rrt] returns a non-empty node list whose first
    element is a node with point [starting_point], no parent and an
    empty [path_from_parent]. *)
Theorem rrt_returns_root_first (state_bounds : Bounds)
    (valid : Point -> result bool) (starting_point : Point)
    (goal_point : option Point) (k : Z) (delta_q : R) (w : World) :
  exists (root : ref) (rest : list ref) (w' : World),
    rrt state_bounds valid starting_point goal_point k delta_q w
      = (Ok (root :: rest), w') /\
    exists n : Node,
      get_node w' root = Some n /\
      point n = starting_point /\ parent n = None /\ path_from_parent n = [].
Proof.
  rewrite rrt_run. eexists. eexists. eexists. split; [reflexivity|].
  eexists. split; [apply get_node_new|]. repeat split.
Qed.

(** C7. The node list that [rrt] returns is a single-rooted tree: every
    node but the first has a parent at a strictly earlier index, and
    following parent links from any node of the list ends at the first
    node without meeting a node twice. *)
Theorem rrt_returns_single_rooted_tree (state_bounds : Bounds)
    (valid : Point -> result bool) (starting_point : Point)
    (goal_point : option Point) (k : Z) (delta_q : R) (w : World) :
  exists (node_list : list ref) (w' : World),
    rrt state_bounds valid starting_point goal_point k delta_q w
      = (Ok node_list, w') /\
    single_rooted_tree w' node_list.
Proof.
  rewrite rrt_run. eexists. eexists. split; [reflexivity|]. split.
  - intros [|[|i]] r Hi Hr; [lia | discriminate | discriminate].
  - intros r [<-|[]]. exists (length (heap w)), [length (heap w)].
    split; [reflexivity|]. split.
    + apply chain_root with (n := mkNode starting_point None []).
      * apply get_node_new.
      * reflexivity.
    + constructor; [intros [] | constructor].
Qed.

(** The walk of the plotting code from the returned node stops at once. *)
Lemma rrt_follow_parents (state_bounds : Bounds)
    (valid : Point -> result bool) (starting_point : Point)
    (goal_point : option Point) (k : Z) (delta_q : R) (w : World)
    (fuel : nat) :
  let out := rrt state_bounds valid starting_point goal_point k delta_q w in
  follow_parents (S fuel) (snd out) (length (heap w)) = [length (heap w)].
Proof.
  rewrite rrt_run. cbn [snd follow_parents].
  rewrite get_node_new. reflexivity.
Qed.

(** C5. Goal run of the fixed world: the goal [0.9, 0.8] is a valid
    point within [delta_q] of the start [0.9, 0.9], and yet [rrt] returns
    the root alone, whose point is further than 1e-5 from the goal. *)
Theorem rrt_goal_run_returns_root_only (w : World) :
  state_is_valid fixed_state_bounds fixed_obstacles [0.9; 0.8] = Ok true /\
  euclidean_distance [0.9; 0.9] [0.9; 0.8] <= run_delta_q fixed_state_bounds /\
  exists (root : ref) (w' : World),
    rrt fixed_state_bounds (state_is_valid fixed_state_bounds fixed_obstacles)
        [0.9; 0.9] (Some [0.9; 0.8]) 250 (run_delta_q fixed_state_bounds) w
      = (Ok [root], w') /\
    exists n : Node,
      get_node w' root = Some n /\
      1e-5 < euclidean_distance (point n) [0.9; 0.8].
Proof.
  split; [run_state_is_valid|]. split.
  - unfold euclidean_distance, run_delta_q, np_linalg_norm.
    apply sqrt_le_1_alt.
    cbn [sq_dist sum_sq fold_right flat_map fixed_state_bounds app fst snd].
    lra.
  - rewrite rrt_run. eexists. eexists. split; [reflexivity|].
    eexists. split; [apply get_node_new|].
    cbn [point]. unfold euclidean_distance.
    apply lt_sqrt; cbn [sq_dist]; lra.
Qed.

(** C6. Exploration run of the fixed world with [k = 250]: [rrt]
    returns the root alone and leaves both random generators as they
    were, so that no sample has been drawn. *)
Theorem rrt_exploration_run_draws_no_sample (starting_point : Point)
    (w : World) :
  exists (root : ref) (w' : World),
    rrt fixed_state_bounds (state_is_valid fixed_state_bounds fixed_obstacles)
        starting_point None 250 (run_delta_q fixed_state_bounds) w
      = (Ok [root], w') /\
    np_random w' = np_random w /\ py_random w' = py_random w /\
    numbers_drawn w w' = 0%nat.
Proof.
  rewrite rrt_run. eexists. eexists. split; [reflexivity|].
  unfold numbers_drawn. cbn [np_random py_random]. repeat split. lia.
Qed.

(** C1. [steer] raises [NotImplementedError] for every pair of points
    and every step bound: no sequence of points is returned. *)
Theorem steer_raises_for_every_input (from_point to_point : Point)
    (delta_q : R) :
  steer from_point to_point delta_q = Raise NotImplementedError.
Proof. reflexivity. Qed.

(** C2. In the clipping case [steer([0,0], [10,10], 1.0)], where the
    target is further than [delta_q] from the source, [steer] raises
    [NotImplementedError]: no effective target is computed. *)
Theorem steer_clipping_case_raises :
  1 < euclidean_distance [0; 0] [10; 10] /\
  steer [0; 0] [10; 10] 1 = Raise NotImplementedError.
Proof.
  split; [|reflexivity].
  unfold euclidean_distance. apply lt_sqrt; cbn [sq_dist]; lra.
Qed.

(** C3. On a non-empty node list [get_nearest_vertex] raises
    [NotImplementedError] and leaves the store as it was: no node is
    returned. *)
Theorem get_nearest_vertex_raises_on_nonempty (first : ref)
    (rest : list ref) (q_point : Point) (w : World) :
  get_nearest_vertex (first :: rest) q_point w
    = (Raise NotImplementedError, w).
Proof. reflexivity. Qed.


(** C4. On a path all of whose points are valid in the fixed world,
    [check_path_valid] raises [NotImplementedError] instead of
    returning True. *)
Theorem check_path_valid_raises_on_valid_path :
  Forall (fun p => state_is_valid fixed_state_bounds fixed_obstacles p = Ok true)
         [[0.9; 0.9]; [0.9; 0.8]] /\
  check_path_valid [[0.9; 0.9]; [0.9; 0.8]]
                   (state_is_valid fixed_state_bounds fixed_obstacles)
    = Raise NotImplementedError.
Proof.
  split; [|reflexivity].
  repeat constructor; run_state_is_valid.
Qed.

(** ** More on the validity predicate: shapes, errors, obstacles *)







Lemma obstacles_loop_app (state : Point) (front back : list Obstacle) :
  obstacles_loop state (front ++ back) =
    match obstacles_loop state front with
    | inr true => obstacles_loop state back
    | other => other
    end.
Proof.
  induction front as [|obs front IH]; cbn [app obstacles_loop].
  - reflexivity.
  - destruct (np_sub state (fst obs)) as [e|v]; [reflexivity|].
    destruct (Rleb (np_linalg_norm v) (snd obs)); [reflexivity | exact IH].
Qed.

Lemma obstacles_loop_true_inv (state : Point) :
  forall obstacles : list Obstacle,
    obstacles_loop state obstacles = Ok true ->
    forall obs, In obs obstacles ->
      exists v, np_sub state (fst obs) = Ok v /\ snd obs < np_linalg_norm v.
Proof.
  induction obstacles as [|o rest IH]; intros Hrun obs Hin.
  - destruct Hin.
  - cbn [obstacles_loop] in Hrun.
    destruct (np_sub state (fst o)) as [e|v] eqn:Hsub; [discriminate|].
    destruct (Rleb (np_linalg_norm v) (snd o)) eqn:Hle; [discriminate|].
    apply Rleb_false in Hle.
    destruct Hin as [<-|Hin].
    + exists v. split; [exact Hsub | exact Hle].
    + exact (IH Hrun obs Hin).
Qed.

Lemma sq_dist_same (p : Point) : sq_dist p p = 0.
Proof.
  induction p as [|x p IH]; simpl; [reflexivity|]. rewrite IH. lra.
Qed.

(** X3. Obstacles only ever remove valid states, and they act one by
    one: a state is valid in a world with the obstacles [front ++ back]
    exactly when it is valid in the world with [front] alone and in the
    world with [back] alone. *)
Theorem state_is_valid_obstacles_app (state_bounds : Bounds)
    (front back : list Obstacle) (state : Point) :
  state_is_valid state_bounds (front ++ back) state = Ok true <->
  state_is_valid state_bounds front state = Ok true /\
  state_is_valid state_bounds back state = Ok true.
Proof.
  unfold state_is_valid.
  destruct (bounds_loop state state_bounds 0) as [e|[|]].
  - unfold Raise, Ok. split; [discriminate | intros [H _]; discriminate].
  - rewrite obstacles_loop_app.
    destruct (obstacles_loop state front) as [e|[|]]; unfold Ok.
    + split; [discriminate | intros [H _]; discriminate].
    + split; [intro H; split; [reflexivity | exact H] | intros [_ H]; exact H].
    + split; [discriminate | intros [H _]; discriminate].
  - unfold Ok. split; [discriminate | intros [H _]; discriminate].
Qed.

(** X4. The centre of an obstacle with a non-negative radius is never
    a valid state. *)
Theorem state_is_valid_obstacle_center (state_bounds : Bounds)
    (obstacles : list Obstacle) (center : Point) (radius : R) :
  In (center, radius) obstacles ->
  0 <= radius ->
  state_is_valid state_bounds obstacles center = Ok false \/
  exists e, state_is_valid state_bounds obstacles center = Raise e.
Proof.
  intros Hin Hradius.
  destruct (state_is_valid state_bounds obstacles center) as [e|[|]] eqn:Hrun.
  - right. exists e. reflexivity.
  - exfalso. unfold state_is_valid in Hrun.
    destruct (bounds_loop center state_bounds 0) as [e|[|]];
      try discriminate.
    destruct (obstacles_loop_true_inv center obstacles Hrun _ Hin)
      as (v & Hsub & Hlt).
    cbn [fst snd] in Hsub, Hlt.
    rewrite (norm_of_difference center center v eq_refl Hsub) in Hlt.
    unfold euclidean_distance in Hlt.
    rewrite sq_dist_same, sqrt_0 in Hlt. lra.
  - left. reflexivity.
Qed.

Lemma state_is_valid_obstacle_center_witness :
  state_is_valid fixed_state_bounds fixed_obstacles [0.5; 0.5] = Ok false \/
  exists e,
    state_is_valid fixed_state_bounds fixed_obstacles [0.5; 0.5] = Raise e.
Proof.
  apply (state_is_valid_obstacle_center
           fixed_state_bounds fixed_obstacles [0.5; 0.5] 0.2).
  - left. reflexivity.
  - lra.
Defined.

(** ** The sampler, turn by turn *)

Lemma advance_0 (w : World) : advance w 0 = w.
Proof.
  destruct w as [h py [s p]]. unfold advance. simpl.
  rewrite Nat.add_0_r. reflexivity.
Qed.

Lemma advance_advance (w : World) (a b : nat) :
  advance (advance w a) b = advance w (a + b).
Proof.
  unfold advance. simpl. rewrite Nat.add_assoc. reflexivity.
Qed.

Lemma np_random_rand_exact (n : nat) :
  forall w : World,
    np_random_rand n w =
      (Ok (map (stream (np_random w)) (seq (pos (np_random w)) n)),
       advance w n).
Proof.
  induction n as [|n IH]; intro w; cbn [np_random_rand].
  - unfold ret. rewrite advance_0. reflexivity.
  - cbn [draw]. unfold bind. rewrite IH. unfold Ok, ret, advance.
    cbn [np_random py_random heap stream pos seq map].
    rewrite <- Nat.add_succ_comm. reflexivity.
Qed.

Lemma sample_point_exact (bounds : Bounds) (w : World) :
  sample_point bounds w =
    (Ok (candidate bounds (np_random w) 0), advance w (length bounds)).
Proof.
  unfold sample_point, bind. rewrite np_random_rand_exact.
  unfold Ok, ret, candidate. rewrite Nat.mul_0_l, Nat.add_0_r. reflexivity.
Qed.

Lemma candidate_length (bounds : Bounds) (g : Generator) (j : nat) :
  length (candidate bounds g j) = length bounds.
Proof.
  unfold candidate.
  rewrite length_map, length_combine, length_map, length_seq. lia.
Qed.

Lemma candidate_advance (bounds : Bounds) (w : World) (k i : nat) :
  candidate bounds (np_random (advance w (k * length bounds))) i =
  candidate bounds (np_random w) (k + i).
Proof.
  unfold candidate, advance. cbn [np_random stream pos].
  replace (pos (np_random w) + k * length bounds + i * length bounds)%nat
    with (pos (np_random w) + (k + i) * length bounds)%nat by lia.
  reflexivity.
Qed.

Lemma get_random_valid_vertex_turn (fuel : nat)
    (valid : Point -> result bool) (bounds : Bounds) (w : World) :
  get_random_valid_vertex (S fuel) valid bounds w =
    match valid (candidate bounds (np_random w) 0) with
    | inl e => (Raise e, advance w (length bounds))
    | inr true =>
        (Ok (Some (candidate bounds (np_random w) 0)),
         advance w (length bounds))
    | inr false =>
        get_random_valid_vertex fuel valid bounds (advance w (length bounds))
    end.
Proof.
  cbn [get_random_valid_vertex]. unfold bind at 1.
  rewrite sample_point_exact. unfold Ok at 1. unfold bind, lift.
  destruct (valid (candidate bounds (np_random w) 0)) as [e|[|]];
    reflexivity.
Qed.

Lemma get_random_valid_vertex_skip (valid : Point -> result bool)
    (bounds : Bounds) (j : nat) :
  forall (fuel : nat) (w : World),
    (forall i, (i < j)%nat ->
               valid (candidate bounds (np_random w) i) = Ok false) ->
    get_random_valid_vertex (j + fuel) valid bounds w =
    get_random_valid_vertex fuel valid bounds
      (advance w (j * length bounds)).
Proof.
  induction j as [|j IH]; intros fuel w Hfalse.
  - cbn [Nat.mul Nat.add]. rewrite advance_0. reflexivity.
  - cbn [Nat.add]. rewrite get_random_valid_vertex_turn.
    rewrite (Hfalse 0%nat) by lia. unfold Ok.
    rewrite IH.
    + rewrite advance_advance. reflexivity.
    + intros i Hi.
      pose proof (candidate_advance bounds w 1 i) as Hc.
      rewrite Nat.mul_1_l in Hc. rewrite Hc.
      apply Hfalse. lia.
Qed.

(** The first two points that the sampler draws in [stepping_world]. *)
Lemma stepping_world_first_point :
  candidate fixed_state_bounds (np_random stepping_world) 0
    = [0.5 * (1 - 0) + 0; 0.5 * (1 - 0) + 0].
Proof. reflexivity. Qed.

Lemma stepping_world_second_point :
  candidate fixed_state_bounds (np_random stepping_world) 1
    = [0.9 * (1 - 0) + 0; 0.9 * (1 - 0) + 0].
Proof. reflexivity. Qed.

Lemma stepping_world_first_point_invalid :
  state_is_valid fixed_state_bounds fixed_obstacles
    (candidate fixed_state_bounds (np_random stepping_world) 0) = Ok false.
Proof. rewrite stepping_world_first_point. run_state_is_valid. Qed.

Lemma stepping_world_second_point_valid :
  state_is_valid fixed_state_bounds fixed_obstacles
    (candidate fixed_state_bounds (np_random stepping_world) 1) = Ok true.
Proof. rewrite stepping_world_second_point. run_state_is_valid. Qed.

Lemma stepping_world_first_point_misshaped :
  state_is_valid fixed_state_bounds misshaped_obstacles
    (candidate fixed_state_bounds (np_random stepping_world) 0) = Ok false.
Proof.
  rewrite stepping_world_first_point. unfold misshaped_obstacles.
  run_state_is_valid.
Qed.

Lemma stepping_world_second_point_misshaped :
  state_is_valid fixed_state_bounds misshaped_obstacles
    (candidate fixed_state_bounds (np_random stepping_world) 1)
    = Raise ValueError.
Proof.
  rewrite stepping_world_second_point. unfold misshaped_obstacles.
  run_state_is_valid.
Qed.

(** X5. The sampler returns the first valid point that it draws: when
    the points of turns [0 .. j-1] are invalid and the point of turn [j]
    is valid, any fuel above [j] makes the loop end with that point,
    after [j + 1] draws of one number per dimension. *)
Theorem get_random_valid_vertex_first_valid (valid : Point -> result bool)
    (bounds : Bounds) (j fuel : nat) (w : World) :
  (forall i, (i < j)%nat ->
             valid (candidate bounds (np_random w) i) = Ok false) ->
  valid (candidate bounds (np_random w) j) = Ok true ->
  (j < fuel)%nat ->
  get_random_valid_vertex fuel valid bounds w =
    (Ok (Some (candidate bounds (np_random w) j)),
     advance w (S j * length bounds)).
Proof.
  intros Hfalse Htrue Hfuel.
  replace fuel with (j + S (fuel - S j))%nat by lia.
  rewrite (get_random_valid_vertex_skip valid bounds j _ w Hfalse).
  rewrite get_random_valid_vertex_turn.
  pose proof (candidate_advance bounds w j 0) as Hc.
  rewrite Nat.add_0_r in Hc. rewrite Hc, Htrue. unfold Ok.
  rewrite advance_advance. do 2 f_equal. lia.
Qed.

Lemma get_random_valid_vertex_first_valid_witness :
  get_random_valid_vertex 3
      (state_is_valid fixed_state_bounds fixed_obstacles) fixed_state_bounds
      stepping_world
  = (Ok (Some (candidate fixed_state_bounds (np_random stepping_world) 1)),
     advance stepping_world (2 * length fixed_state_bounds)).
Proof.
  apply (get_random_valid_vertex_first_valid
           (state_is_valid fixed_state_bounds fixed_obstacles)
           fixed_state_bounds 1 3 stepping_world).
  - intros i Hi. assert (i = 0)%nat as -> by lia.
    exact stepping_world_first_point_invalid.
  - exact stepping_world_second_point_valid.
  - lia.
Defined.

(** X6. An exception of the validity predicate ends the sampler: when
    the points of turns [0 .. j-1] are invalid and the predicate raises
    on the point of turn [j], the sampler raises the same exception. *)
Theorem get_random_valid_vertex_raises (valid : Point -> result bool)
    (bounds : Bounds) (j fuel : nat) (w : World) (e : exn) :
  (forall i, (i < j)%nat ->
             valid (candidate bounds (np_random w) i) = Ok false) ->
  valid (candidate bounds (np_random w) j) = Raise e ->
  (j < fuel)%nat ->
  get_random_valid_vertex fuel valid bounds w =
    (Raise e, advance w (S j * length bounds)).
Proof.
  intros Hfalse Hraise Hfuel.
  replace fuel with (j + S (fuel - S j))%nat by lia.
  rewrite (get_random_valid_vertex_skip valid bounds j _ w Hfalse).
  rewrite get_random_valid_vertex_turn.
  pose proof (candidate_advance bounds w j 0) as Hc.
  rewrite Nat.add_0_r in Hc. rewrite Hc, Hraise. unfold Raise.
  rewrite advance_advance. do 2 f_equal. lia.
Qed.

Lemma get_random_valid_vertex_raises_witness :
  get_random_valid_vertex 3
      (state_is_valid fixed_state_bounds misshaped_obstacles)
      fixed_state_bounds stepping_world
  = (Raise ValueError,
     advance stepping_world (2 * length fixed_state_bounds)).
Proof.
  apply (get_random_valid_vertex_raises
           (state_is_valid fixed_state_bounds misshaped_obstacles)
           fixed_state_bounds 1 3 stepping_world ValueError).
  - intros i Hi. assert (i = 0)%nat as -> by lia.
    exact stepping_world_first_point_misshaped.
  - exact stepping_world_second_point_misshaped.
  - lia.
Defined.

(** X7. The loop of the sampler has no bound of its own: as long as
    the points drawn are invalid it goes on, so that after any number
    [fuel] of turns [vertex] is still None and [fuel] points have been
    drawn. *)
Theorem get_random_valid_vertex_keeps_drawing (valid : Point -> result bool)
    (bounds : Bounds) (fuel : nat) (w : World) :
  (forall i, (i < fuel)%nat ->
             valid (candidate bounds (np_random w) i) = Ok false) ->
  get_random_valid_vertex fuel valid bounds w =
    (Ok None, advance w (fuel * length bounds)).
Proof.
  intro Hfalse.
  replace fuel with (fuel + 0)%nat at 1 by lia.
  rewrite (get_random_valid_vertex_skip valid bounds fuel 0 w Hfalse).
  reflexivity.
Qed.

Lemma get_random_valid_vertex_keeps_drawing_witness :
  get_random_valid_vertex 3 (fun _ => Ok false) fixed_state_bounds
      constant_world
  = (Ok None,
     advance constant_world
             (3 * length fixed_state_bounds)).
Proof.
  apply (get_random_valid_vertex_keeps_drawing
           (fun _ => Ok false) fixed_state_bounds 3
           constant_world).
  intros i Hi. reflexivity.
Defined.

Lemma get_random_valid_vertex_some_inv (valid : Point -> result bool)
    (bounds : Bounds) (fuel : nat) :
  forall (w w' : World) (vertex : Point),
    get_random_valid_vertex fuel valid bounds w = (Ok (Some vertex), w') ->
    exists j,
      (j < fuel)%nat /\
      vertex = candidate bounds (np_random w) j /\
      valid vertex = Ok true /\
      w' = advance w (S j * length bounds).
Proof.
  induction fuel as [|fuel IH]; intros w w' vertex Hrun.
  - discriminate.
  - rewrite get_random_valid_vertex_turn in Hrun.
    destruct (valid (candidate bounds (np_random w) 0)) as [e|[|]] eqn:Hv.
    + discriminate.
    + injection Hrun as <- <-. exists 0%nat.
      split; [lia|]. split; [reflexivity|]. split; [exact Hv|].
      f_equal. lia.
    + apply IH in Hrun. destruct Hrun as (j & Hj & Hvertex & Hvalid & Hw).
      exists (S j). split; [lia|].
      pose proof (candidate_advance bounds w 1 j) as Hc.
      rewrite Nat.mul_1_l in Hc. rewrite Hc in Hvertex.
      split; [exact Hvertex|]. split; [exact Hvalid|].
      rewrite Hw, advance_advance. f_equal.
Qed.

Lemma get_random_valid_vertex_some_first (valid : Point -> result bool)
    (bounds : Bounds) (fuel : nat) :
  forall (w w' : World) (vertex : Point),
    get_random_valid_vertex fuel valid bounds w = (Ok (Some vertex), w') ->
    exists j,
      (j < fuel)%nat /\
      vertex = candidate bounds (np_random w) j /\
      (forall i, (i < j)%nat ->
                 valid (candidate bounds (np_random w) i) = Ok false) /\
      w' = advance w (S j * length bounds).
Proof.
  induction fuel as [|fuel IH]; intros w w' vertex Hrun.
  - discriminate.
  - rewrite get_random_valid_vertex_turn in Hrun.
    destruct (valid (candidate bounds (np_random w) 0)) as [e|[|]] eqn:Hv.
    + discriminate.
    + injection Hrun as <- <-. exists 0%nat.
      split; [lia|]. split; [reflexivity|].
      split; [intros i Hi; lia|]. f_equal. lia.
    + apply IH in Hrun. destruct Hrun as (j & Hj & Hvertex & Hfalse & Hw).
      exists (S j). split; [lia|].
      pose proof (candidate_advance bounds w 1) as Hc.
      rewrite Nat.mul_1_l in Hc. rewrite Hc in Hvertex.
      split; [exact Hvertex|]. split.
      * intros [|i] Hi; [exact Hv|].
        pose proof (Hc i) as Hci. cbn [Nat.add] in Hci.
        rewrite <- Hci. apply Hfalse. lia.
      * rewrite Hw, advance_advance. f_equal.
Qed.

Lemma stepping_world_run :
  get_random_valid_vertex 3
      (state_is_valid fixed_state_bounds fixed_obstacles) fixed_state_bounds
      stepping_world
  = (Ok (Some (candidate fixed_state_bounds (np_random stepping_world) 1)),
     advance stepping_world 4).
Proof.
  rewrite get_random_valid_vertex_turn, stepping_world_first_point_invalid.
  unfold Ok at 1. rewrite get_random_valid_vertex_turn.
  pose proof (candidate_advance fixed_state_bounds stepping_world 1 0) as Hc.
  rewrite Nat.mul_1_l in Hc. rewrite Hc.
  cbn [Nat.add]. rewrite stepping_world_second_point_valid.
  rewrite advance_advance. reflexivity.
Qed.

(** X8. A vertex that the sampler returns is the point of one of its
    turns, [j] say, with [j] below the number of turns allowed: the
    validity predicate accepts it and has rejected the point of every
    earlier turn, and the vertex has one coordinate per dimension.  The
    call has drawn [j + 1] points from numpy's generator and has left
    the nodes and Python's own generator alone. *)
Theorem get_random_valid_vertex_sound (valid : Point -> result bool)
    (bounds : Bounds) (fuel : nat) (w w' : World) (vertex : Point) :
  get_random_valid_vertex fuel valid bounds w = (Ok (Some vertex), w') ->
  valid vertex = Ok true /\
  length vertex = length bounds /\
  heap w' = heap w /\ py_random w' = py_random w /\
  exists j,
    (j < fuel)%nat /\
    vertex = candidate bounds (np_random w) j /\
    (forall i, (i < j)%nat ->
               valid (candidate bounds (np_random w) i) = Ok false) /\
    pos (np_random w') = (pos (np_random w) + (j + 1) * length bounds)%nat.
Proof.
  intro Hrun.
  destruct (get_random_valid_vertex_some_inv valid bounds fuel w w' vertex Hrun)
    as (_ & _ & _ & Hvalid & _).
  apply get_random_valid_vertex_some_first in Hrun.
  destruct Hrun as (j & Hj & -> & Hfalse & ->).
  split; [exact Hvalid|].
  split; [apply candidate_length|].
  split; [reflexivity|]. split; [reflexivity|].
  exists j. split; [exact Hj|]. split; [reflexivity|].
  split; [exact Hfalse|].
  cbn [advance np_random pos]. lia.
Qed.

Lemma get_random_valid_vertex_sound_witness :
  state_is_valid fixed_state_bounds fixed_obstacles
    (candidate fixed_state_bounds (np_random stepping_world) 1) = Ok true /\
  length (candidate fixed_state_bounds (np_random stepping_world) 1)
    = length fixed_state_bounds /\
  heap (advance stepping_world 4) = heap stepping_world /\
  py_random (advance stepping_world 4) = py_random stepping_world /\
  exists j,
    (j < 3)%nat /\
    candidate fixed_state_bounds (np_random stepping_world) 1
      = candidate fixed_state_bounds (np_random stepping_world) j /\
    (forall i, (i < j)%nat ->
               state_is_valid fixed_state_bounds fixed_obstacles
                 (candidate fixed_state_bounds (np_random stepping_world) i)
               = Ok false) /\
    pos (np_random (advance stepping_world 4))
      = (pos (np_random stepping_world)
         + (j + 1) * length fixed_state_bounds)%nat.
Proof.
  apply (get_random_valid_vertex_sound
           (state_is_valid fixed_state_bounds fixed_obstacles)
           fixed_state_bounds 3 stepping_world).
  exact stepping_world_run.
Defined.

(** X9. With the validity predicate of a world whose obstacle centres
    have the dimension of the bounds, the sampler never raises: every
    point it draws has the shape that the predicate expects. *)
Theorem get_random_valid_vertex_never_raises (bounds : Bounds)
    (obstacles : list Obstacle) (fuel : nat) (w : World) :
  Forall (fun obs : Obstacle => length (fst obs) = length bounds) obstacles ->
  exists (vertex : option Point) (w' : World),
    get_random_valid_vertex fuel (state_is_valid bounds obstacles) bounds w
      = (Ok vertex, w').
Proof.
  intro Hshape. revert w. induction fuel as [|fuel IH]; intro w.
  - exists None, w. reflexivity.
  - rewrite get_random_valid_vertex_turn.
    destruct (state_is_valid_total bounds obstacles
                (candidate bounds (np_random w) 0)) as [b Hb].
    + apply candidate_length.
    + rewrite candidate_length. exact Hshape.
    + rewrite Hb. unfold Ok. destruct b.
      * eexists. eexists. reflexivity.
      * apply IH.
Qed.

Lemma get_random_valid_vertex_never_raises_witness :
  exists (vertex : option Point) (w' : World),
    get_random_valid_vertex 5
      (state_is_valid fixed_state_bounds fixed_obstacles) fixed_state_bounds
      constant_world
      = (Ok vertex, w').
Proof.
  apply (get_random_valid_vertex_never_raises
           fixed_state_bounds fixed_obstacles 5).
  repeat constructor.
Defined.



(** ** The random obstacles *)

Lemma center_loop_run (rest : Bounds) :
  forall (center_vector : list R) (w : World),
    unit_interval_stream (py_random w) ->
    proper_bounds rest ->
    exists coords w',
      center_loop rest center_vector w = (Ok (center_vector ++ coords), w') /\
      Forall2 within coords rest /\
      same_but_python_drew w w' (length rest).
Proof.
  induction rest as [|[lo hi] rest IH]; intros cv w Hstream Hb.
  - exists [], w. cbn [center_loop]. unfold ret. rewrite app_nil_r.
    split; [reflexivity|]. split; [constructor|].
    unfold same_but_python_drew. cbn [length]. repeat split. lia.
  - inversion Hb as [|? ? Hlohi Hb']; subst. simpl in Hlohi.
    cbn [center_loop]. unfold bind at 1. unfold random_random at 1.
    cbn [draw].
    set (u := stream (py_random w) (pos (py_random w))).
    set (w1 := mkWorld (heap w)
                 (mkGenerator (stream (py_random w)) (S (pos (py_random w))))
                 (np_random w)).
    destruct (IH (cv ++ [lo + u * (hi - lo)]) w1)
      as (coords & w' & Hrun & Hwithin & Hh & Hnp & Hs & Hp).
    { intro i. exact (Hstream i). }
    { exact Hb'. }
    exists ((lo + u * (hi - lo)) :: coords), w'.
    unfold Ok at 1. rewrite Hrun, <- app_assoc. split; [reflexivity|].
    split.
    + constructor; [|exact Hwithin].
      pose proof (Hstream (pos (py_random w))) as Hu. fold u in Hu.
      unfold within; simpl. split; nra.
    + unfold same_but_python_drew. subst w1. cbn [heap np_random py_random
        stream pos length] in *. repeat split; try assumption. lia.
Qed.

Lemma get_nd_obstacle_run (state_bounds : Bounds) (w : World) :
  unit_interval_stream (py_random w) ->
  proper_bounds state_bounds ->
  exists center radius w',
    get_nd_obstacle state_bounds w = (Ok (center, radius), w') /\
    Forall2 within center state_bounds /\
    0 <= radius < 0.6 /\
    same_but_python_drew w w' (S (length state_bounds)).
Proof.
  intros Hstream Hb. unfold get_nd_obstacle, bind.
  destruct (center_loop_run state_bounds [] w Hstream Hb)
    as (coords & w1 & Hrun & Hwithin & Hh & Hnp & Hs & Hp).
  rewrite Hrun. unfold Ok at 1. unfold random_random. cbn [draw app].
  eexists. eexists. eexists. split; [reflexivity|].
  split; [exact Hwithin|]. split.
  - pose proof (Hstream (pos (py_random w1))) as Hu.
    rewrite <- Hs in Hu. lra.
  - unfold same_but_python_drew. cbn [heap np_random py_random stream pos].
    repeat split; try assumption. lia.
Qed.

Lemma obstacles_append_loop_run (state_bounds : Bounds) (n : nat) :
  forall (obstacles : list Obstacle) (w : World),
    unit_interval_stream (py_random w) ->
    proper_bounds state_bounds ->
    Forall (obstacle_in_domain state_bounds) obstacles ->
    exists obstacles' w',
      obstacles_append_loop n state_bounds obstacles w = (Ok obstacles', w') /\
      length obstacles' = (length obstacles + n)%nat /\
      Forall (obstacle_in_domain state_bounds) obstacles' /\
      same_but_python_drew w w' (n * S (length state_bounds)).
Proof.
  induction n as [|n IH]; intros obstacles w Hstream Hb Hall.
  - exists obstacles, w. split; [reflexivity|]. split; [lia|].
    split; [exact Hall|]. unfold same_but_python_drew.
    repeat split. cbn [Nat.mul]. lia.
  - cbn [obstacles_append_loop]. unfold bind at 1.
    destruct (get_nd_obstacle_run state_bounds w Hstream Hb)
      as (center & radius & w1 & Hrun & Hwithin & Hradius & Hh & Hnp & Hs & Hp).
    rewrite Hrun. unfold Ok at 1.
    destruct (IH (obstacles ++ [(center, radius)]) w1)
      as (os & w' & Hloop & Hlen & Hos & Hh' & Hnp' & Hs' & Hp').
    { intro i. rewrite Hs. apply Hstream. }
    { exact Hb. }
    { apply Forall_app. split; [exact Hall|].
      constructor; [split; assumption | constructor]. }
    exists os, w'. split; [exact Hloop|]. split.
    { rewrite Hlen, length_app. simpl. lia. }
    split; [exact Hos|]. unfold same_but_python_drew.
    split; [congruence|]. split; [congruence|]. split; [congruence|].
    rewrite Hp', Hp. cbn [Nat.mul]. lia.
Qed.

Lemma center_loop_draws (rest : Bounds) :
  forall (center_vector : list R) (w : World),
    exists coords w',
      center_loop rest center_vector w = (Ok (center_vector ++ coords), w') /\
      length coords = length rest /\
      same_but_python_drew w w' (length rest).
Proof.
  induction rest as [|[lo hi] rest IH]; intros cv w.
  - exists [], w. cbn [center_loop]. unfold ret. rewrite app_nil_r.
    split; [reflexivity|]. split; [reflexivity|].
    unfold same_but_python_drew. cbn [length]. repeat split. lia.
  - cbn [center_loop]. unfold bind at 1. unfold random_random at 1.
    cbn [draw].
    set (u := stream (py_random w) (pos (py_random w))).
    set (w1 := mkWorld (heap w)
                 (mkGenerator (stream (py_random w)) (S (pos (py_random w))))
                 (np_random w)).
    destruct (IH (cv ++ [lo + u * (hi - lo)]) w1)
      as (coords & w' & Hrun & Hlen & Hh & Hnp & Hs & Hp).
    exists ((lo + u * (hi - lo)) :: coords), w'.
    unfold Ok at 1. rewrite Hrun, <- app_assoc. split; [reflexivity|].
    split; [simpl; lia|].
    unfold same_but_python_drew. subst w1. cbn [heap np_random py_random
      stream pos length] in *. repeat split; try assumption. lia.
Qed.

(** X11. [get_nd_obstacle] returns a disc whose centre has one
    coordinate per dimension of the bounds; when Python's generator
    yields numbers of [0, 1) its radius lies in [0, 0.6).  The call
    draws one number per dimension and one more from Python's
    generator, and touches neither the nodes nor numpy's generator. *)
Theorem get_nd_obstacle_shape_radius_and_draws (state_bounds : Bounds)
    (w : World) :
  unit_interval_stream (py_random w) ->
  exists center radius w',
    get_nd_obstacle state_bounds w = (Ok (center, radius), w') /\
    length center = length state_bounds /\
    0 <= radius < 0.6 /\
    pos (py_random w') = (pos (py_random w) + length state_bounds + 1)%nat /\
    np_random w' = np_random w /\ heap w' = heap w.
Proof.
  intro Hstream. unfold get_nd_obstacle, bind.
  destruct (center_loop_draws state_bounds [] w)
    as (coords & w1 & Hrun & Hlen & Hh & Hnp & Hs & Hp).
  rewrite Hrun. unfold Ok at 1. unfold random_random. cbn [draw app].
  eexists. eexists. eexists. split; [reflexivity|].
  split; [exact Hlen|]. split.
  - pose proof (Hstream (pos (py_random w1))) as Hu.
    rewrite <- Hs in Hu. lra.
  - cbn [heap np_random py_random stream pos].
    repeat split; try assumption. lia.
Qed.

Lemma get_nd_obstacle_shape_radius_and_draws_witness :
  exists center radius w',
    get_nd_obstacle fixed_state_bounds constant_world
      = (Ok (center, radius), w') /\
    length center = length fixed_state_bounds /\
    0 <= radius < 0.6 /\
    pos (py_random w')
      = (pos (py_random constant_world) + length fixed_state_bounds + 1)%nat /\
    np_random w' = np_random constant_world /\ heap w' = heap constant_world.
Proof.
  apply (get_nd_obstacle_shape_radius_and_draws
           fixed_state_bounds constant_world).
  intro i. simpl. lra.
Defined.

(** X12. When Python's generator yields numbers of [0, 1),
    [setup_random_2d_world] returns the bounds [[0,10],[0,10]], thirty
    obstacles, each with its centre in [0, 10) x [0, 10) and a radius
    in [0, 0.6), and the validity predicate of these bounds and
    obstacles.  It draws ninety numbers from Python's generator and
    none from numpy's. *)
Theorem setup_random_2d_world_in_domain (w : World) :
  unit_interval_stream (py_random w) ->
  exists obstacles w',
    setup_random_2d_world w
      = (Ok ([(0, 10); (0, 10)], obstacles,
             state_is_valid [(0, 10); (0, 10)] obstacles), w') /\
    length obstacles = 30%nat /\
    Forall (fun obs : Obstacle =>
              (exists cx cy, fst obs = [cx; cy] /\
                             0 <= cx < 10 /\ 0 <= cy < 10) /\
              0 <= snd obs < 0.6) obstacles /\
    pos (py_random w') = (pos (py_random w) + 90)%nat /\
    np_random w' = np_random w /\ heap w' = heap w.
Proof.
  intro Hstream. unfold setup_random_2d_world, bind.
  destruct (obstacles_append_loop_run random_state_bounds 30 [] w Hstream)
    as (os & w' & Hloop & Hlen & Hos & Hh & Hnp & _ & Hp).
  { repeat constructor; simpl; lra. }
  { constructor. }
  rewrite Hloop. unfold Ok at 1. unfold ret.
  exists os, w'. split; [reflexivity|]. split; [exact Hlen|].
  split.
  - eapply Forall_impl; [|exact Hos].
    intros [c r] [Hc Hr]. split; [|exact Hr]. cbn [fst] in *.
    unfold random_state_bounds in Hc.
    inversion Hc as [|cx b1 c1 bs1 Hx Hc1]; subst.
    inversion Hc1 as [|cy b2 c2 bs2 Hy Hc2]; subst.
    inversion Hc2; subst.
    exists cx, cy. unfold within in Hx, Hy. simpl in Hx, Hy.
    split; [reflexivity | split; assumption].
  - split; [exact Hp|]. split; assumption.
Qed.

Lemma setup_random_2d_world_in_domain_witness :
  exists obstacles w',
    setup_random_2d_world constant_world
      = (Ok ([(0, 10); (0, 10)], obstacles,
             state_is_valid [(0, 10); (0, 10)] obstacles), w') /\
    length obstacles = 30%nat /\
    Forall (fun obs : Obstacle =>
              (exists cx cy, fst obs = [cx; cy] /\
                             0 <= cx < 10 /\ 0 <= cy < 10) /\
              0 <= snd obs < 0.6) obstacles /\
    pos (py_random w') = (pos (py_random constant_world) + 90)%nat /\
    np_random w' = np_random constant_world /\ heap w' = heap constant_world.
Proof.
  apply (setup_random_2d_world_in_domain constant_world).
  intro i. simpl. lra.
Defined.

(** ** The store of Node objects *)

Lemma get_node_old (w : World) (n : Node) (r : ref) (m : Node) :
  get_node w r = Some m ->
  get_node (mkWorld (heap w ++ [n]) (py_random w) (np_random w)) r = Some m.
Proof.
  unfold get_node. cbn [heap]. intro H.
  rewrite nth_error_app1; [exact H|].
  apply nth_error_Some. rewrite H. discriminate.
Qed.

Lemma get_node_bound (w : World) (r : ref) (n : Node) :
  get_node w r = Some n -> (r < length (heap w))%nat.
Proof.
  unfold get_node. intro H. apply nth_error_Some. rewrite H. discriminate.
Qed.

Lemma heap_ordered_new_Node (pt : Point) (parent_ref : option ref)
    (w : World) :
  heap_ordered w ->
  (forall p, parent_ref = Some p -> (p < length (heap w))%nat) ->
  heap_ordered (snd (new_Node pt parent_ref w)).
Proof.
  intros Hord Hparent r n p Hr Hp. unfold new_Node in Hr. cbn [snd] in Hr.
  unfold get_node in Hr. cbn [heap] in Hr.
  destruct (Nat.lt_ge_cases r (length (heap w))) as [Hlt|Hge].
  - rewrite nth_error_app1 in Hr by exact Hlt. exact (Hord r n p Hr Hp).
  - rewrite nth_error_app2 in Hr by exact Hge.
    destruct (r - length (heap w))%nat as [|k] eqn:Hk.
    + simpl in Hr. injection Hr as <-. cbn [parent] in Hp.
      specialize (Hparent p Hp). lia.
    + simpl in Hr. destruct k; discriminate.
Qed.

(** X14. Parent links always point to older objects: when this holds
    of the store and the parent given to [Node(pt, parent)] is an
    object of the store (or None), it holds of the store after the
    call. *)
Theorem new_Node_keeps_heap_ordered (pt : Point) (parent_ref : option ref)
    (w : World) :
  heap_ordered w ->
  (forall p, parent_ref = Some p -> exists n, get_node w p = Some n) ->
  heap_ordered (snd (new_Node pt parent_ref w)).
Proof.
  intros Hord Hparent. apply heap_ordered_new_Node; [exact Hord|].
  intros p Hp. destruct (Hparent p Hp) as [n Hn].
  exact (get_node_bound w p n Hn).
Qed.

Lemma two_node_world_ordered : heap_ordered two_node_world.
Proof.
  intros [|[|r]] n p Hr Hp; unfold get_node in Hr; simpl in Hr.
  - injection Hr as <-. discriminate.
  - injection Hr as <-. simpl in Hp. injection Hp as <-. lia.
  - destruct r; discriminate.
Qed.

Lemma new_Node_keeps_heap_ordered_witness :
  heap_ordered (snd (new_Node [0.8; 0.8] (Some 1%nat) two_node_world)).
Proof.
  apply (new_Node_keeps_heap_ordered [0.8; 0.8] (Some 1%nat) two_node_world).
  - exact two_node_world_ordered.
  - intros p Hp. injection Hp as <-. eexists. reflexivity.
Defined.

Lemma follow_parents_chain (w : World) :
  heap_ordered w ->
  forall (fuel : nat) (r : ref) (n : Node),
    (r < fuel)%nat ->
    get_node w r = Some n ->
    exists root,
      parent_chain w root r (follow_parents fuel w r) /\
      Forall (fun v => (v <= r)%nat) (follow_parents fuel w r) /\
      NoDup (follow_parents fuel w r) /\
      (length (follow_parents fuel w r) <= S r)%nat.
Proof.
  intro Hord. induction fuel as [|fuel IH]; intros r n Hfuel Hn; [lia|].
  cbn [follow_parents]. rewrite Hn.
  destruct (parent n) as [p|] eqn:Hp.
  - pose proof (Hord r n p Hn Hp) as Hlt.
    destruct (get_node w p) as [m|] eqn:Hm.
    + destruct (IH p m) as (root & Hchain & Hle & Hnodup & Hlen);
        [lia | exact Hm |].
      exists root. split; [exact (chain_step w root r n p _ Hn Hp Hchain)|].
      split.
      * constructor; [lia|]. eapply Forall_impl; [|exact Hle].
        intros v Hv. simpl in Hv. lia.
      * split.
        -- constructor; [|exact Hnodup]. intro Hin.
           rewrite Forall_forall in Hle. specialize (Hle r Hin). lia.
        -- simpl. lia.
    + exfalso. unfold get_node in Hm, Hn.
      apply nth_error_None in Hm.
      assert (r < length (heap w))%nat
        by (apply nth_error_Some; rewrite Hn; discriminate).
      lia.
  - exists r. split; [exact (chain_root w r n Hn Hp)|].
    split; [constructor; [lia | constructor]|].
    split; [constructor; [intros [] | constructor]|]. simpl. lia.
Qed.

(** X15. In a store whose parent links point to older objects, the
    walk up the parent links that [visualize_2D_graph] makes from a
    node [r] comes to an end: with fuel above [r] it stops at a node
    without a parent, after at most [r + 1] nodes and without meeting a
    node twice. *)
Theorem follow_parents_reaches_root (w : World) (fuel : nat) (r : ref)
    (n : Node) :
  heap_ordered w ->
  get_node w r = Some n ->
  (r < fuel)%nat ->
  exists root,
    parent_chain w root r (follow_parents fuel w r) /\
    NoDup (follow_parents fuel w r) /\
    (length (follow_parents fuel w r) <= r + 1)%nat.
Proof.
  intros Hord Hn Hfuel.
  destruct (follow_parents_chain w Hord fuel r n Hfuel Hn)
    as (root & Hchain & _ & Hnodup & Hlen).
  exists root. split; [exact Hchain|]. split; [exact Hnodup | lia].
Qed.

Lemma follow_parents_reaches_root_witness :
  exists root,
    parent_chain two_node_world root 1%nat
                 (follow_parents 2 two_node_world 1%nat) /\
    NoDup (follow_parents 2 two_node_world 1%nat) /\
    (length (follow_parents 2 two_node_world 1%nat) <= 1 + 1)%nat.
Proof.
  apply (follow_parents_reaches_root two_node_world 2 1%nat
           (mkNode [0.9; 0.8] (Some 0%nat) [[0.9; 0.9]; [0.9; 0.8]])).
  - exact two_node_world_ordered.
  - reflexivity.
  - lia.
Defined.

(** ** Trees of earlier runs *)

Lemma parent_chain_new_Node (w : World) (n0 : Node) (root r : ref)
    (visited : list ref) :
  parent_chain w root r visited ->
  parent_chain (mkWorld (heap w ++ [n0]) (py_random w) (np_random w))
               root r visited.
Proof.
  induction 1 as [n Hn Hp | r n p visited Hn Hp _ IH].
  - apply chain_root with (n := n); [apply get_node_old; exact Hn | exact Hp].
  - apply chain_step with (n := n) (p := p);
      [apply get_node_old; exact Hn | exact Hp | exact IH].
Qed.

Lemma single_rooted_tree_new_Node (w : World) (n0 : Node)
    (node_list : list ref) :
  single_rooted_tree w node_list ->
  single_rooted_tree (mkWorld (heap w ++ [n0]) (py_random w) (np_random w))
                     node_list.
Proof.
  intros [Hearlier Hchains]. split.
  - intros i r Hi Hr.
    destruct (Hearlier i r Hi Hr) as (n & p & j & Hn & Hp & Hj & Hnth).
    exists n, p, j. split; [apply get_node_old; exact Hn|].
    split; [exact Hp|]. split; assumption.
  - intros r Hin.
    destruct (Hchains r Hin) as (root & visited & Hroot & Hchain & Hnodup).
    exists root, visited. split; [exact Hroot|].
    split; [apply parent_chain_new_Node; exact Hchain | exact Hnodup].
Qed.

Lemma parent_chain_start (w : World) (root r : ref) (visited : list ref) :
  parent_chain w root r visited -> exists n, get_node w r = Some n.
Proof. intros [n Hn _ | ? n ? ? Hn _ _]; exists n; exact Hn. Qed.

(** X16. A later run of [rrt] keeps the tree of an earlier one: when
    [node_list] is a single-rooted tree of the store, [rrt] returns a
    new single-rooted tree that shares no node with it, and [node_list]
    is still a single-rooted tree of the store after the run. *)
Theorem rrt_keeps_earlier_tree (node_list : list ref) (state_bounds : Bounds)
    (valid : Point -> result bool) (starting_point : Point)
    (goal_point : option Point) (k : Z) (delta_q : R) (w : World) :
  single_rooted_tree w node_list ->
  exists (new_list : list ref) (w' : World),
    rrt state_bounds valid starting_point goal_point k delta_q w
      = (Ok new_list, w') /\
    single_rooted_tree w' node_list /\
    single_rooted_tree w' new_list /\
    (forall r, In r node_list -> In r new_list -> False).
Proof.
  intro Htree. rewrite rrt_run. eexists. eexists.
  split; [reflexivity|].
  split; [apply single_rooted_tree_new_Node; exact Htree|]. split.
  - split.
    + intros [|[|i]] r Hi Hr; [lia | discriminate | discriminate].
    + intros r [<-|[]]. exists (length (heap w)), [length (heap w)].
      split; [reflexivity|]. split.
      * apply chain_root with (n := mkNode starting_point None []);
          [apply get_node_new | reflexivity].
      * constructor; [intros [] | constructor].
  - intros r Hold [<-|[]].
    destruct Htree as [_ Hchains].
    destruct (Hchains _ Hold) as (root & visited & _ & Hchain & _).
    destruct (parent_chain_start _ _ _ _ Hchain) as [n Hn].
    apply get_node_bound in Hn. lia.
Qed.

Lemma two_node_world_tree : single_rooted_tree two_node_world [0%nat; 1%nat].
Proof.
  split.
  - intros [|[|[|i]]] r Hi Hr; try lia; try discriminate.
    simpl in Hr. injection Hr as <-.
    exists (mkNode [0.9; 0.8] (Some 0%nat) [[0.9; 0.9]; [0.9; 0.8]]),
           0%nat, 0%nat.
    repeat split. lia.
  - intros r [<-|[<-|[]]].
    + exists 0%nat, [0%nat]. split; [reflexivity|]. split.
      * apply chain_root with (n := mkNode [0.9; 0.9] None []); reflexivity.
      * constructor; [intros [] | constructor].
    + exists 0%nat, [1%nat; 0%nat]. split; [reflexivity|]. split.
      * apply chain_step
          with (n := mkNode [0.9; 0.8] (Some 0%nat) [[0.9; 0.9]; [0.9; 0.8]])
               (p := 0%nat); [reflexivity | reflexivity |].
        apply chain_root with (n := mkNode [0.9; 0.9] None []); reflexivity.
      * constructor.
        -- intros [H|[]]. discriminate.
        -- constructor; [intros [] | constructor].
Qed.

Lemma rrt_keeps_earlier_tree_witness :
  exists (new_list : list ref) (w' : World),
    rrt fixed_state_bounds (state_is_valid fixed_state_bounds fixed_obstacles)
        [0.1; 0.1] None 250 (run_delta_q fixed_state_bounds) two_node_world
      = (Ok new_list, w') /\
    single_rooted_tree w' [0%nat; 1%nat] /\
    single_rooted_tree w' new_list /\
    (forall r, In r [0%nat; 1%nat] -> In r new_list -> False).
Proof.
  apply (rrt_keeps_earlier_tree [0%nat; 1%nat]).
  exact two_node_world_tree.
Defined.

(** ** A run of the script: a sampled start, then the planner *)

(** X18. When the starting point comes from the sampler, as in the
    runs of the script, every node of the list that [rrt] returns holds
    a state that the validity predicate accepts. *)
Theorem rrt_of_sampled_start_is_valid (state_bounds : Bounds)
    (valid : Point -> result bool) (fuel : nat)
    (goal_point : option Point) (k : Z) (delta_q : R)
    (w w1 : World) (starting_point : Point) :
  get_random_valid_vertex fuel valid state_bounds w
    = (Ok (Some starting_point), w1) ->
  exists (node_list : list ref) (w2 : World),
    rrt state_bounds valid starting_point goal_point k delta_q w1
      = (Ok node_list, w2) /\
    forall r, In r node_list ->
      exists n, get_node w2 r = Some n /\ valid (point n) = Ok true.
Proof.
  intro Hsample.
  apply get_random_valid_vertex_some_inv in Hsample.
  destruct Hsample as (j & _ & _ & Hvalid & _).
  rewrite rrt_run. eexists. eexists. split; [reflexivity|].
  intros r [<-|[]]. eexists. split; [apply get_node_new|]. exact Hvalid.
Qed.

Lemma rrt_of_sampled_start_is_valid_witness :
  exists (node_list : list ref) (w2 : World),
    rrt fixed_state_bounds (state_is_valid fixed_state_bounds fixed_obstacles)
        (candidate fixed_state_bounds (np_random constant_world) 0)
        None 250 (run_delta_q fixed_state_bounds)
        (advance constant_world 2)
      = (Ok node_list, w2) /\
    forall r, In r node_list ->
      exists n, get_node w2 r = Some n /\
                state_is_valid fixed_state_bounds fixed_obstacles (point n)
                  = Ok true.
Proof.
  apply (rrt_of_sampled_start_is_valid
           fixed_state_bounds
           (state_is_valid fixed_state_bounds fixed_obstacles) 1
           None 250 (run_delta_q fixed_state_bounds) constant_world).
  rewrite get_random_valid_vertex_turn.
  assert (Hvalid :
    state_is_valid fixed_state_bounds fixed_obstacles
      (candidate fixed_state_bounds (np_random constant_world) 0) = Ok true).
  { unfold candidate, constant_world.
    cbn [np_random stream pos length fixed_state_bounds seq map combine
         fst snd Nat.mul Nat.add].
    run_state_is_valid. }
  rewrite Hvalid. reflexivity.
Defined.
